(** * list-integration-tests.py: the CI matrix generator

    A shallow embedding of [.github/include/list-integration-tests.py] and
    the properties of its trailer extraction, matrix expansion and output.

    Python [str] values are sequences of Unicode code points; they are
    modelled as [list N], one number per code point.  Python sets are
    [gset]s, the process environment is a [gmap], and the effects of the
    script (two output streams, exceptions, [sys.exit]) live in a small
    writer-and-error monad. *)

From Stdlib Require Import NArith ZArith List Ascii String DecimalString Lia.
From stdpp Require Import base option list gmap sets.

#[local] Set Warnings "-clear-no-such-hyp".

Local Open Scope N_scope.

(** ** Python strings *)

Abbreviation str := (list N).

(** A source literal, code point by code point. *)
Definition lit (s : string) : str := map N_of_ascii (list_ascii_of_string s).

(** The line feed, ["\n"]. *)
Definition LF : N := 10.

(** [str.isspace] on one code point: the code points CPython's
    [str.strip()] removes. *)
Definition isspace (c : N) : bool :=
  ((0x09 <=? c) && (c <=? 0x0d)) || ((0x1c <=? c) && (c <=? 0x20))
  || (c =? 0x85) || (c =? 0xa0) || (c =? 0x1680)
  || ((0x2000 <=? c) && (c <=? 0x200a))
  || (c =? 0x2028) || (c =? 0x2029) || (c =? 0x202f) || (c =? 0x205f)
  || (c =? 0x3000).

Fixpoint lstrip (s : str) : str :=
  match s with
  | [] => []
  | c :: r => if isspace c then lstrip r else s
  end.

Definition rstrip (s : str) : str := rev (lstrip (rev s)).

(** [s.strip()] *)
Definition strip (s : str) : str := rstrip (lstrip s).

(** Truthiness of a string: [if s] / [if not s]. *)
Definition truthy (s : str) : bool :=
  match s with [] => false | _ :: _ => true end.

(** [s.startswith(prefix)] *)
Fixpoint startswith (s prefix : str) {struct prefix} : bool :=
  match prefix, s with
  | [], _ => true
  | p :: ps, c :: cs => (c =? p) && startswith cs ps
  | _ :: _, [] => false
  end.

(** [sub in s] *)
Fixpoint contains (sub s : str) : bool :=
  startswith s sub
  || match s with [] => false | _ :: r => contains sub r end.

(** [s.split(sep)] for a non-empty [sep]: left to right, matches do not
    overlap.  [skip] counts the code points of a separator still to be
    passed over, [cur] is the current piece, reversed. *)
Fixpoint split_go (sep : str) (skip : nat) (cur : str) (s : str) : list str :=
  match s with
  | [] => [rev cur]
  | c :: r =>
      match skip with
      | S n => split_go sep n cur r
      | O =>
          if startswith s sep
          then rev cur :: split_go sep (Nat.pred (length sep)) [] r
          else split_go sep O (c :: cur) r
      end
  end.

Definition split (sep s : str) : list str := split_go sep O [] s.

(** [s.split(sep, 1)]: at most one split, at the first occurrence. *)
Fixpoint split1_go (sep : str) (cur : str) (s : str) : list str :=
  if startswith s sep then [rev cur; drop (length sep) s]
  else match s with
       | [] => [rev cur]
       | c :: r => split1_go sep (c :: cur) r
       end.

Definition split1 (sep s : str) : list str := split1_go sep [] s.

(** [sep.join(parts)] *)
Fixpoint join (sep : str) (parts : list str) : str :=
  match parts with
  | [] => []
  | [p] => p
  | p :: ps => p ++ sep ++ join sep ps
  end.

(** [str(n)] for a length. *)
Definition str_of_nat (n : nat) : str :=
  lit (NilEmpty.string_of_uint (Nat.to_uint n)).

(** [itertools.product(xs, ys)], the pairs as two-element lists. *)
Definition product (xs ys : list str) : list (list str) :=
  x ← xs; y ← ys; [[x; y]].

(** [range(n - 1, -1, -1)] *)
Fixpoint range_down (n : nat) : list nat :=
  match n with
  | O => []
  | S m => m :: range_down m
  end.

(** ** Effects: two output streams, exceptions and [sys.exit] *)

Inductive exn :=
| SystemExit (code : Z)
| CalledProcessError
| IndexError.

(** A piece of a formatted diagnostic line.  The [repr] of a set depends
    on the set's iteration order and stays symbolic. *)
Inductive frag :=
| Text (s : str)
| SetRepr (ks : gset (list N)).

Record run (A : Type) := Run {
  result : exn + A;
  stdout : list (list N);
  stderr : list (list frag)
}.
Arguments Run {A} _ _ _.
Arguments result {A} _.
Arguments stdout {A} _.
Arguments stderr {A} _.

Definition ret {A} (a : A) : run A := Run (inr a) [] [].

Definition bind {A B} (m : run A) (k : A → run B) : run B :=
  match result m with
  | inl e => Run (inl e) (stdout m) (stderr m)
  | inr a =>
      let m' := k a in
      Run (result m') (stdout m ++ stdout m') (stderr m ++ stderr m')
  end.

Definition raise {A} (e : exn) : run A := Run (inl e) [] [].

(** [print(s)] *)
Definition print (s : str) : run unit := Run (inr tt) [s] [].

(** [print(f"...", file=sys.stderr)] *)
Definition eprint (l : list frag) : run unit := Run (inr tt) [] [l].

(** [sys.exit(code)] *)
Definition sys_exit {A} (code : Z) : run A := raise (SystemExit code).

(** [l[i]] *)
Definition getitem {A} (l : list A) (i : nat) : run A :=
  match l !! i with
  | Some x => ret x
  | None => raise IndexError
  end.

Notation "x <~ m ;; k" := (bind m (fun x => k))
  (at level 100, m at next level, right associativity, only parsing).
Notation "m ;;; k" := (bind m (fun _ => k))
  (at level 100, right associativity, only parsing).

(** [f"{x}"] for a value that is [None] or a string. *)
Definition format_opt (o : option (list N)) : str :=
  match o with
  | None => lit "None"
  | Some s => s
  end.

(** ** [json.dumps] on a list of dictionaries with string values

    The default encoder: [ensure_ascii=True], item separator [", "], key
    separator [": "], keys in insertion order.  A dictionary is kept as
    an association list in insertion order. *)

Abbreviation dict := (list (list N * list N)).

Definition DQUOTE : N := 0x22.
Definition BACKSLASH : N := 0x5c.

Definition hex_digit (d : N) : N := if d <? 10 then 0x30 + d else 0x57 + d.

(** ['{0:04x}'.format(n)] for [n < 0x10000]. *)
Definition hex4 (n : N) : str :=
  [hex_digit (n / 0x1000 mod 16); hex_digit (n / 0x100 mod 16);
   hex_digit (n / 0x10 mod 16); hex_digit (n mod 16)].

Definition u_escape (n : N) : str := BACKSLASH :: 0x75 :: hex4 n.

(** The replacement of one code point in [py_encode_basestring_ascii]. *)
Definition escape_char (c : N) : str :=
  if c =? BACKSLASH then [BACKSLASH; BACKSLASH]
  else if c =? DQUOTE then [BACKSLASH; DQUOTE]
  else if c =? 0x08 then [BACKSLASH; 0x62]
  else if c =? 0x0c then [BACKSLASH; 0x66]
  else if c =? 0x0a then [BACKSLASH; 0x6e]
  else if c =? 0x0d then [BACKSLASH; 0x72]
  else if c =? 0x09 then [BACKSLASH; 0x74]
  else if (0x20 <=? c) && (c <=? 0x7e) then [c]
  else if c <? 0x10000 then u_escape c
  else
    let n := c - 0x10000 in
    u_escape (N.lor 0xd800 (N.land (N.shiftr n 10) 0x3ff))
    ++ u_escape (N.lor 0xdc00 (N.land n 0x3ff)).

Definition encode_str (s : str) : str :=
  DQUOTE :: flat_map escape_char s ++ [DQUOTE].

Definition encode_item (kv : list N * list N) : str :=
  encode_str (fst kv) ++ lit ": " ++ encode_str (snd kv).

Definition encode_dict (d : dict) : str :=
  lit "{" ++ join (lit ", ") (map encode_item d) ++ lit "}".

Definition json_dumps (l : list dict) : str :=
  lit "[" ++ join (lit ", ") (map encode_dict l) ++ lit "]".

(** ** The script *)

(** The argument list of [git merge-base HEAD <ref>]. *)
Definition merge_base_cmd (ref : str) : list str :=
  [lit "git"; lit "merge-base"; lit "HEAD"; ref].

(** The argument list of [git log --format=... <range>]. *)
Definition log_cmd (log_range : str) : list str :=
  [lit "git"; lit "log"; lit "--format=%B%n---ENDOFCOMMIT---"; log_range].

Definition ENDOFCOMMIT : str := lit "---ENDOFCOMMIT---".

(** Iterating over a Python set visits every element once, in an order
    the language leaves open. *)
Class SetIter := {
  set_iter : gset (list N) → list (list N);
  set_iter_perm : ∀ X, set_iter X ≡ₚ elements X
}.

(** One such order: the one of [elements]. *)
#[export] Instance elements_iter : SetIter :=
  {| set_iter := elements; set_iter_perm := λ X, reflexivity (elements X) |}.

Section Script.

(** [os.environ] *)
Variable environ : gmap (list N) (list N).

(** [subprocess.run(args, capture_output=True, text=True, check=True)]:
    the captured standard output, or [None] when the command exits
    with a non-zero status. *)
Variable subprocess_run : list (list N) → option (list N).

Context `{SetIter}.

Definition run_checked (args : list str) : run str :=
  match subprocess_run args with
  | Some out => ret out
  | None => raise CalledProcessError
  end.

(** Lines 18-31: no base ref, merge-base with [origin/main]. *)
Definition merge_base_main : run str :=
  eprint [Text (lit "No GITHUB_BASE_REF found, using merge-base with origin/main")];;;
  out <~ run_checked (merge_base_cmd (lit "origin/main"));;
  let merge_base := strip out in
  eprint [Text (lit "Merge base with origin/main: " ++ merge_base)];;;
  ret merge_base.

(** Lines 32-42: PR or merge queue, merge-base with the target branch. *)
Definition merge_base_target (base_ref : str) : run str :=
  eprint [Text (lit "Using merge-base with origin/" ++ base_ref)];;;
  out <~ run_checked (merge_base_cmd (lit "origin/" ++ base_ref));;
  let merge_base := strip out in
  eprint [Text (lit "Merge base with origin/" ++ base_ref ++ lit ": " ++ merge_base)];;;
  ret merge_base.

(** Lines 74-89: the backward scan of one commit message.  [idx] is the
    rest of [range(len(lines) - 1, -1, -1)]; [continue] goes on with it,
    [break] returns. *)
Fixpoint scan_lines (lines : list str) (commit_subject : str)
    (idx : list nat) (kernels : gset (list N)) : run (gset (list N)) :=
  match idx with
  | [] => ret kernels
  | i :: idx' =>
      l <~ getitem lines i;;
      let line := strip l in
      if negb (truthy line) then
        scan_lines lines commit_subject idx' kernels
      else if negb (contains (lit ":") line) then
        ret kernels
      else if startswith line (lit "CI-Test-Kernel:") then
        v <~ getitem (split1 (lit ":") line) 1;;
        let kernel := strip v in
        let kernels := {[kernel]} ∪ kernels in
        eprint [Text (lit "Found CI-Test-Kernel trailer '" ++ kernel
                        ++ lit "' in commit: " ++ commit_subject)];;;
        scan_lines lines commit_subject idx' kernels
      else
        scan_lines lines commit_subject idx' kernels
  end.

(** Lines 65-89: one round of the loop over the commit messages. *)
Definition scan_commit (kernels : gset (list N)) (commit_message : str)
    : run (gset (list N)) :=
  let commit_message := strip commit_message in
  if negb (truthy commit_message) then ret kernels
  else
    let lines := split [LF] commit_message in
    let commit_subject :=
      match lines with
      | l0 :: _ => l0
      | [] => lit "Unknown commit"
      end in
    scan_lines lines commit_subject (range_down (length lines)) kernels.

Fixpoint scan_commits (commit_messages : list str) (kernels : gset (list N))
    : run (gset (list N)) :=
  match commit_messages with
  | [] => ret kernels
  | m :: ms =>
      kernels <~ scan_commit kernels m;;
      scan_commits ms kernels
  end.

Definition get_kernel_trailers_from_commits : run (gset (list N)) :=
  let base_ref := environ !! lit "GITHUB_BASE_REF" in
  eprint [Text (lit "GITHUB_BASE_REF: " ++ format_opt base_ref)];;;
  merge_base <~ (match base_ref with
                 | Some b => if negb (truthy b) then merge_base_main
                             else merge_base_target b
                 | None => merge_base_main
                 end);;
  let log_range := merge_base ++ lit "..HEAD" in
  eprint [Text (lit "Searching for trailers in commit range: " ++ log_range)];;;
  out <~ run_checked (log_cmd log_range);;
  if negb (truthy (strip out)) then ret ∅
  else
    let kernels : gset (list N) := ∅ in
    let commit_messages := split ENDOFCOMMIT out in
    eprint [Text (lit "Found "
                    ++ str_of_nat (length (List.filter (λ msg, truthy (strip msg))
                                             commit_messages))
                    ++ lit " commits to search")];;;
    kernels <~ scan_commits commit_messages kernels;;
    eprint [Text (lit "Total kernels found from trailers: "); SetRepr kernels];;;
    ret kernels.

(** Lines 114-123: the single-variant schedulers. *)
Definition schedulers : list str :=
  [lit "scx_bpfland"; lit "scx_chaos"; lit "scx_lavd"; lit "scx_rlfifo";
   lit "scx_rustland"; lit "scx_rusty"; lit "scx_tickless"].

(** The dictionary literal [{"name": n, "flags": f, "kernel": k}]. *)
Definition row (n f k : str) : dict :=
  [(lit "name", n); (lit "flags", f); (lit "kernel", k)].

(** Lines 110-135: the body of [for kernel in kernels_to_test], on the
    list [matrix] it appends to. *)
Definition matrix_step (default_kernel : str) (matrix : list dict)
    (kernel : str) : list dict :=
  let kernel_name := if decide (kernel = default_kernel) then [] else kernel in
  let matrix :=
    foldl (λ matrix scheduler, matrix ++ [row scheduler [] kernel_name])
          matrix schedulers in
  let matrix :=
    if decide (kernel ≠ lit "stable/6_12")
    then matrix ++ [row (lit "scx_p2dq") [] kernel_name]
    else matrix in
  foldl (λ matrix flags,
           matrix ++ [row (lit "scx_layered") (join (lit " ") flags) kernel_name])
        matrix
        (product [lit "--disable-topology=false"; lit "--disable-topology=true"]
                 [[]; lit "--disable-antistall"]).

(** Lines 104-105. *)
Definition kernels_to_test (default_kernel : str)
    (trailer_kernels : gset (list N)) : gset (list N) :=
  {[default_kernel]} ∪ trailer_kernels.

(** Lines 107-135. *)
Definition build_matrix (default_kernel : str)
    (trailer_kernels : gset (list N)) : list dict :=
  foldl (matrix_step default_kernel) []
        (set_iter (kernels_to_test default_kernel trailer_kernels)).

Definition main (argv : list str) : run unit :=
  if negb (Nat.eqb (length argv) 2) then
    eprint [Text (lit "Usage: list-integration-tests.py <default-kernel>")];;;
    sys_exit 1
  else
    default_kernel <~ getitem argv 1;;
    trailer_kernels <~ get_kernel_trailers_from_commits;;
    let matrix := build_matrix default_kernel trailer_kernels in
    print (lit "matrix=" ++ json_dumps matrix).

End Script.

(** ** Reading the output back: JSON texts of strings, arrays and objects

    The reader follows the JSON grammar for these three kinds of value,
    with optional white space around the structural characters.  A string
    is read into its sequence of UTF-16 code units: an unescaped code point
    stands for itself, [\uXXXX] for the unit [XXXX]. *)

#[warnings="-register-all"]
Inductive json :=
| JStr (units : list N)
| JArr (items : list json)
| JObj (members : list (list N * json)).

Definition is_ws (c : N) : bool :=
  (c =? 0x20) || (c =? 0x09) || (c =? 0x0a) || (c =? 0x0d).

Fixpoint skip_ws (s : str) : str :=
  match s with
  | [] => []
  | c :: r => if is_ws c then skip_ws r else s
  end.

Definition unhex (c : N) : option N :=
  if (0x30 <=? c) && (c <=? 0x39) then Some (c - 0x30)
  else if (0x61 <=? c) && (c <=? 0x66) then Some (c - 0x57)
  else if (0x41 <=? c) && (c <=? 0x46) then Some (c - 0x37)
  else None.

(** The two-character escapes. *)
Definition unescape (e : N) : option N :=
  if e =? DQUOTE then Some DQUOTE
  else if e =? BACKSLASH then Some BACKSLASH
  else if e =? 0x2f then Some 0x2f
  else if e =? 0x62 then Some 0x08
  else if e =? 0x66 then Some 0x0c
  else if e =? 0x6e then Some 0x0a
  else if e =? 0x72 then Some 0x0d
  else if e =? 0x74 then Some 0x09
  else None.

(** The characters of a string after its opening quotation mark, up to
    and including the closing one. *)
Fixpoint parse_chars (s : str) : option (list N * list N) :=
  match s with
  | [] => None
  | c :: r =>
      if c =? DQUOTE then Some ([], r)
      else if c <? 0x20 then None
      else if c =? BACKSLASH then
        match r with
        | [] => None
        | e :: r1 =>
            if e =? 0x75 then
              match r1 with
              | h1 :: h2 :: h3 :: h4 :: r2 =>
                  match unhex h1, unhex h2, unhex h3, unhex h4 with
                  | Some a, Some b, Some c, Some d =>
                      match parse_chars r2 with
                      | Some (u, rest) =>
                          Some (0x1000 * a + 0x100 * b + 0x10 * c + d :: u, rest)
                      | None => None
                      end
                  | _, _, _, _ => None
                  end
              | _ => None
              end
            else
              match unescape e with
              | Some x =>
                  match parse_chars r1 with
                  | Some (u, rest) => Some (x :: u, rest)
                  | None => None
                  end
              | None => None
              end
        end
      else
        match parse_chars r with
        | Some (u, rest) => Some (c :: u, rest)
        | None => None
        end
  end.

(** The items of a non-empty array, after the opening bracket. *)
Fixpoint parse_items (pv : list N → option (json * list N)) (fuel : nat)
    (s : str) : option (list json * list N) :=
  match fuel with
  | O => None
  | S fuel =>
      match pv s with
      | None => None
      | Some (v, r) =>
          match skip_ws r with
          | c :: r' =>
              if c =? 0x2c then
                match parse_items pv fuel r' with
                | Some (vs, rest) => Some (v :: vs, rest)
                | None => None
                end
              else if c =? 0x5d then Some ([v], r')
              else None
          | [] => None
          end
      end
  end.

(** The members of a non-empty object, after the opening brace. *)
Fixpoint parse_members (pv : list N → option (json * list N)) (fuel : nat)
    (s : str) : option (list (list N * json) * list N) :=
  match fuel with
  | O => None
  | S fuel =>
      match skip_ws s with
      | q :: r0 =>
          if q =? DQUOTE then
            match parse_chars r0 with
            | None => None
            | Some (k, r1) =>
                match skip_ws r1 with
                | c1 :: r2 =>
                    if c1 =? 0x3a then
                      match pv r2 with
                      | None => None
                      | Some (v, r3) =>
                          match skip_ws r3 with
                          | c :: r' =>
                              if c =? 0x2c then
                                match parse_members pv fuel r' with
                                | Some (kvs, rest) => Some ((k, v) :: kvs, rest)
                                | None => None
                                end
                              else if c =? 0x7d then Some ([(k, v)], r')
                              else None
                          | [] => None
                          end
                      end
                    else None
                | [] => None
                end
            end
          else None
      | [] => None
      end
  end.

Fixpoint parse_value (fuel : nat) (s : str) : option (json * list N) :=
  match fuel with
  | O => None
  | S fuel =>
      match skip_ws s with
      | c :: r =>
          if c =? DQUOTE then
            match parse_chars r with
            | Some (u, rest) => Some (JStr u, rest)
            | None => None
            end
          else if c =? 0x5b then
            match skip_ws r with
            | c' :: r' =>
                if c' =? 0x5d then Some (JArr [], r')
                else
                  match parse_items (parse_value fuel) fuel r with
                  | Some (vs, rest) => Some (JArr vs, rest)
                  | None => None
                  end
            | [] => None
            end
          else if c =? 0x7b then
            match skip_ws r with
            | c' :: r' =>
                if c' =? 0x7d then Some (JObj [], r')
                else
                  match parse_members (parse_value fuel) fuel r with
                  | Some (kvs, rest) => Some (JObj kvs, rest)
                  | None => None
                  end
            | [] => None
            end
          else None
      | [] => None
      end
  end.

(** A whole text: one value, then nothing but white space. *)
Definition json_loads (s : str) : option json :=
  match parse_value (length s) s with
  | Some (v, rest) =>
      match skip_ws rest with
      | [] => Some v
      | _ :: _ => None
      end
  | None => None
  end.

(** The UTF-16 code units of a code point. *)
Definition utf16 (c : N) : list N :=
  if c <? 0x10000 then [c]
  else
    let n := c - 0x10000 in
    [N.lor 0xd800 (N.land (N.shiftr n 10) 0x3ff);
     N.lor 0xdc00 (N.land n 0x3ff)].

Definition units (s : str) : list N := flat_map utf16 s.

(** The JSON value of a list of dictionaries with string values. *)
Definition json_of_dict (d : dict) : json :=
  JObj (map (λ kv, (units (fst kv), JStr (units (snd kv)))) d).

Definition json_of_matrix (l : list dict) : json := JArr (map json_of_dict l).

(** An object with exactly the keys [name], [flags] and [kernel], each
    with a string value. *)
Definition is_row_object (v : json) : Prop :=
  ∃ n f k, v = JObj [(lit "name", JStr n); (lit "flags", JStr f);
                     (lit "kernel", JStr k)].

(** ** The rows of one kernel, as the matrix builder is described *)

(** [d[key]] on a dictionary; [None] stands for a missing key. *)
Fixpoint dict_get (key : str) (d : dict) : option (list N) :=
  match d with
  | [] => None
  | (k, v) :: d' => if decide (k = key) then Some v else dict_get key d'
  end.

Definition has_name (n : str) (d : dict) : bool :=
  bool_decide (dict_get (lit "name") d = Some n).

Definition is_single_variant (d : dict) : bool :=
  existsb (λ n, has_name n d) schedulers.

(** The [kernel] field of the rows of a kernel. *)
Definition kernel_label (default_kernel kernel : str) : str :=
  if decide (kernel = default_kernel) then [] else kernel.

Definition topology_flags : list str :=
  [lit "--disable-topology=false"; lit "--disable-topology=true"].

Definition antistall_flags : list str := [[]; lit "--disable-antistall"].

(** The four [scx_layered] rows with the flags joined as they are. *)
Definition layered_rows (label : str) : list dict :=
  a ← topology_flags; b ← antistall_flags;
  [row (lit "scx_layered") (join (lit " ") [a; b]) label].

(** The four [scx_layered] rows with the empty flag strings filtered out
    before joining. *)
Definition layered_rows_filtered (label : str) : list dict :=
  a ← topology_flags; b ← antistall_flags;
  [row (lit "scx_layered") (join (lit " ") (List.filter truthy [a; b])) label].

(** ** Trailer extraction, as it is described

    The lines of a message, last line first and stripped, up to the first
    non-empty line without a colon. *)
Fixpoint before_stop (ls : list str) : list str :=
  match ls with
  | [] => []
  | l :: r =>
      if truthy l && negb (contains (lit ":") l) then []
      else l :: before_stop r
  end.

(** The stripped values of the [CI-Test-Kernel:] lines met before the
    stop, in the order of the scan. *)
Definition trailer_values (lines : list str) : list str :=
  map (λ l, strip (drop 15 l))
      (List.filter (λ l, startswith l (lit "CI-Test-Kernel:"))
                   (before_stop (map strip (rev lines)))).

(** The remote-tracking branch the merge-base is taken with. *)
Definition base_branch (environ : gmap (list N) (list N)) : str :=
  match environ !! lit "GITHUB_BASE_REF" with
  | Some b => if truthy b then lit "origin/" ++ b else lit "origin/main"
  | None => lit "origin/main"
  end.

(** The trailer values of a whole [git log] output, commit by commit. *)
Definition log_trailers (out : str) : list str :=
  flat_map (λ m, trailer_values (split [LF] (strip m))) (split ENDOFCOMMIT out).

(** ** Sample runs *)

(** A repository whose merge-base with [origin/main] is [abc123] and whose
    log over [abc123..HEAD] prints [out]; any other command fails. *)
Definition sample_git (out : str) (args : list str) : option (list N) :=
  if decide (args = merge_base_cmd (lit "origin/main")) then
    Some (lit "abc123" ++ [LF])
  else if decide (args = log_cmd (lit "abc123..HEAD")) then Some out
  else None.

(** The log output for one commit message. *)
Definition log_of (message : str) : str :=
  message ++ [LF; LF] ++ ENDOFCOMMIT ++ [LF].

Definition message_body_then_trailer : str :=
  lit "title" ++ [LF; LF] ++ lit "body line without colon" ++ [LF]
  ++ lit "CI-Test-Kernel: foo".

Definition message_trailer_then_note : str :=
  lit "title" ++ [LF; LF] ++ lit "CI-Test-Kernel: foo" ++ [LF]
  ++ lit "some note without colon".

Definition message_indented_trailer : str :=
  lit "title" ++ [LF; LF] ++ lit "   CI-Test-Kernel: a:b  " ++ [LF]
  ++ lit "Signed-off-by: x".

Definition message_subject_only : str := lit "CI-Test-Kernel: foo".

Definition message_subject_and_trailers : str :=
  lit "CI-Test-Kernel: foo" ++ [LF; LF] ++ lit "Signed-off-by: x".

(** ** Further notions used in the properties *)

(** A line that ends the backward scan: not empty once stripped, and
    without a colon. *)
Definition stops (l : str) : bool :=
  truthy (strip l) && negb (contains (lit ":") (strip l)).

(** The JSON value whose strings are the dictionary's own strings. *)
Definition json_of_plain (l : list dict) : json :=
  JArr (map (λ d, JObj (map (λ kv, (fst kv, JStr (snd kv))) d)) l).

(** A printable ASCII code point. *)
Definition printable (c : N) : Prop := 0x20 ≤ c ∧ c ≤ 0x7e.

(** * Properties *)

Arguments lit : simpl never.

(** ** The monad *)

Lemma bind_ret_l {A B} (a : A) (k : A → run B) : bind (ret a) k = k a.
Proof. unfold bind, ret; simpl. destruct (k a); reflexivity. Qed.

Lemma result_bind_inr {A B} (m : run A) (k : A → run B) a :
  result m = inr a → result (bind m k) = result (k a).
Proof. intros E. unfold bind. rewrite E. reflexivity. Qed.

Lemma result_bind_inl {A B} (m : run A) (k : A → run B) e :
  result m = inl e → result (bind m k) = inl e.
Proof. intros E. unfold bind. rewrite E. reflexivity. Qed.

(** ** The matrix builder *)

Lemma foldl_append {A B} (f : B → A) (l : list B) (m : list A) :
  foldl (λ m x, m ++ [f x]) m l = m ++ map f l.
Proof.
  revert m. induction l as [|x l IH]; intros m; simpl.
  - symmetry. apply app_nil_r.
  - rewrite IH, <- app_assoc. reflexivity.
Qed.

(** One round of the loop appends the rows of its kernel: the seven
    single-variant rows, [scx_p2dq] unless the kernel is [stable/6_12],
    and the four [scx_layered] rows. *)
Lemma matrix_step_rows default_kernel matrix kernel :
  matrix_step default_kernel matrix kernel =
  matrix
  ++ map (λ s, row s [] (kernel_label default_kernel kernel)) schedulers
  ++ (if decide (kernel = lit "stable/6_12") then []
      else [row (lit "scx_p2dq") [] (kernel_label default_kernel kernel)])
  ++ layered_rows (kernel_label default_kernel kernel).
Proof.
  unfold matrix_step. fold (kernel_label default_kernel kernel).
  generalize (kernel_label default_kernel kernel) as label. intros label.
  rewrite (foldl_append (λ s, row s [] label)).
  rewrite (foldl_append
             (λ flags, row (lit "scx_layered") (join (lit " ") flags) label)).
  destruct (decide (kernel = lit "stable/6_12")) as [E|E].
  - destruct (decide (kernel ≠ lit "stable/6_12")) as [E'|_]; [congruence|].
    rewrite <- app_assoc. reflexivity.
  - destruct (decide (kernel ≠ lit "stable/6_12")) as [_|E']; [|tauto].
    rewrite <- !app_assoc. reflexivity.
Qed.

Lemma matrix_step_app default_kernel matrix kernel :
  matrix_step default_kernel matrix kernel =
  matrix ++ matrix_step default_kernel [] kernel.
Proof. rewrite !matrix_step_rows. reflexivity. Qed.

Lemma foldl_matrix_step default_kernel (ks : list str) matrix :
  foldl (matrix_step default_kernel) matrix ks =
  matrix ++ flat_map (matrix_step default_kernel []) ks.
Proof.
  revert matrix. induction ks as [|k ks IH]; intros matrix; simpl.
  - symmetry. apply app_nil_r.
  - rewrite IH, (matrix_step_app _ matrix), <- app_assoc. reflexivity.
Qed.

Lemma build_matrix_flat `{SetIter} default_kernel trailer_kernels :
  build_matrix default_kernel trailer_kernels =
  flat_map (matrix_step default_kernel [])
           (set_iter (kernels_to_test default_kernel trailer_kernels)).
Proof. unfold build_matrix. apply foldl_matrix_step. Qed.

Lemma set_iter_elem `{SetIter} (X : gset (list N)) k : k ∈ set_iter X ↔ k ∈ X.
Proof. rewrite (set_iter_perm X). apply elem_of_elements. Qed.


Lemma filter_flat_map {A B} (p : B → bool) (f : A → list B) (l : list A) :
  List.filter p (flat_map f l) = flat_map (λ x, List.filter p (f x)) l.
Proof.
  induction l as [|x l IH]; simpl; [reflexivity|].
  rewrite List.filter_app, IH. reflexivity.
Qed.

Lemma flat_map_ext_all {A B} (f g : A → list B) (l : list A) :
  (∀ x, f x = g x) → flat_map f l = flat_map g l.
Proof. intros E. induction l as [|x l IH]; simpl; [|rewrite E, IH]; reflexivity. Qed.

Lemma layered_of_step default_kernel kernel :
  List.filter (has_name (lit "scx_layered")) (matrix_step default_kernel [] kernel)
  = layered_rows (kernel_label default_kernel kernel).
Proof.
  rewrite matrix_step_rows.
  generalize (kernel_label default_kernel kernel) as label. intros label.
  destruct (decide (kernel = lit "stable/6_12")); reflexivity.
Qed.

(** C1, as the code has it: for every kernel of the kernel set, taken in
    the order of the iteration, the matrix holds exactly four [scx_layered]
    rows, one per pair (A, B) in product order, and the [flags] of each is
    A and B joined by one space with nothing filtered out: with B empty
    the flags are A followed by a single space. *)
Theorem layered_rows_joined `{SetIter} default_kernel trailer_kernels :
  List.filter (has_name (lit "scx_layered"))
              (build_matrix default_kernel trailer_kernels)
  = flat_map
      (λ kernel,
         let label := kernel_label default_kernel kernel in
         [row (lit "scx_layered") (lit "--disable-topology=false" ++ lit " ") label;
          row (lit "scx_layered")
              (lit "--disable-topology=false" ++ lit " " ++ lit "--disable-antistall")
              label;
          row (lit "scx_layered") (lit "--disable-topology=true" ++ lit " ") label;
          row (lit "scx_layered")
              (lit "--disable-topology=true" ++ lit " " ++ lit "--disable-antistall")
              label])
      (set_iter (kernels_to_test default_kernel trailer_kernels))
  ∧ (∀ a b : str, join (lit " ") [a; b] = a ++ lit " " ++ b)
  ∧ (∀ label,
       map (dict_get (lit "flags")) (layered_rows label)
       = map (λ ab, Some (join (lit " ") ab))
             (product topology_flags antistall_flags)).
Proof.
  split; [|split].
  - rewrite build_matrix_flat, filter_flat_map.
    apply flat_map_ext_all. intros kernel. apply layered_of_step.
  - reflexivity.
  - reflexivity.
Qed.

(** C1 as it is stated fails: with the default kernel [stable/6_13] and no
    trailer, the [scx_layered] rows are not the ones whose flags have the
    empty strings filtered out before joining. *)
Lemma layered_rows_filtered_counterexample :
  List.filter (has_name (lit "scx_layered"))
              (build_matrix (lit "stable/6_13") ∅)
  ≠ flat_map (λ kernel,
                layered_rows_filtered (kernel_label (lit "stable/6_13") kernel))
             (set_iter (kernels_to_test (lit "stable/6_13") ∅)).
Proof. intros E. vm_compute in E. discriminate E. Qed.

Lemma elem_of_flat_map {A B} (f : A → list B) (l : list A) (y : B) :
  y ∈ flat_map f l ↔ ∃ x, x ∈ l ∧ y ∈ f x.
Proof.
  rewrite list_elem_of_In, in_flat_map. split.
  - intros (x & Hx & Hy). exists x. rewrite !list_elem_of_In. tauto.
  - intros (x & Hx & Hy). exists x. rewrite <- !list_elem_of_In. tauto.
Qed.

(** Every row of a kernel is one of the rows listed here. *)
Lemma step_row_cases default_kernel kernel (d : dict) :
  d ∈ matrix_step default_kernel [] kernel →
  let label := kernel_label default_kernel kernel in
  (∃ s, s ∈ schedulers ∧ d = row s [] label)
  ∨ (kernel ≠ lit "stable/6_12" ∧ d = row (lit "scx_p2dq") [] label)
  ∨ (∃ f, d = row (lit "scx_layered") f label).
Proof.
  rewrite matrix_step_rows, app_nil_l. intros Hd label. fold label in Hd.
  apply elem_of_app in Hd as [Hd|Hd].
  - left. apply list_elem_of_fmap in Hd as (s & -> & Hs). eauto.
  - apply elem_of_app in Hd as [Hd|Hd].
    + right; left. destruct (decide (kernel = lit "stable/6_12")).
      * inversion Hd.
      * apply list_elem_of_singleton in Hd. tauto.
    + right; right. unfold layered_rows in Hd.
      apply list_elem_of_In in Hd. simpl in Hd.
      destruct Hd as [<-|[<-|[<-|[<-|[]]]]]; eauto.
Qed.

Lemma counts_of_step default_kernel kernel :
  let rows := matrix_step default_kernel [] kernel in
  length (List.filter is_single_variant rows) = 7%nat
  ∧ length (List.filter (has_name (lit "scx_layered")) rows) = 4%nat
  ∧ length (List.filter (has_name (lit "scx_p2dq")) rows)
    = (if decide (kernel = lit "stable/6_12") then 0 else 1)%nat
  ∧ length rows = (if decide (kernel = lit "stable/6_12") then 11 else 12)%nat.
Proof.
  intros rows. subst rows. rewrite matrix_step_rows.
  generalize (kernel_label default_kernel kernel) as label. intros label.
  destruct (decide (kernel = lit "stable/6_12")); repeat split; reflexivity.
Qed.

(** C3: the matrix is the concatenation, over the kernels of the set, of
    the rows of each kernel; a kernel has 7 single-variant rows, 4
    [scx_layered] rows and one [scx_p2dq] row unless it is [stable/6_12],
    so 12 rows, or 11 for [stable/6_12]; and no row of the matrix is an
    [scx_p2dq] row with the kernel [stable/6_12]. *)
Theorem rows_per_kernel `{SetIter} default_kernel trailer_kernels :
  let kernels := kernels_to_test default_kernel trailer_kernels in
  let matrix := build_matrix default_kernel trailer_kernels in
  default_kernel ∈ kernels
  ∧ set_iter kernels ≡ₚ elements kernels
  ∧ matrix = flat_map (matrix_step default_kernel []) (set_iter kernels)
  ∧ (∀ kernel,
       let rows := matrix_step default_kernel [] kernel in
       length (List.filter is_single_variant rows) = 7%nat
       ∧ length (List.filter (has_name (lit "scx_layered")) rows) = 4%nat
       ∧ length (List.filter (has_name (lit "scx_p2dq")) rows)
         = (if decide (kernel = lit "stable/6_12") then 0 else 1)%nat
       ∧ length rows
         = (if decide (kernel = lit "stable/6_12") then 11 else 12)%nat)
  ∧ (∀ d, d ∈ matrix_step default_kernel [] (lit "stable/6_12") →
          dict_get (lit "name") d ≠ Some (lit "scx_p2dq"))
  ∧ (∀ d, d ∈ matrix →
          ¬ (dict_get (lit "name") d = Some (lit "scx_p2dq")
             ∧ dict_get (lit "kernel") d = Some (lit "stable/6_12"))).
Proof.
  intros kernels matrix. subst kernels matrix.
  split; [unfold kernels_to_test; set_solver|].
  split; [apply set_iter_perm|].
  split; [apply build_matrix_flat|].
  split; [apply counts_of_step|].
  split.
  - intros d Hd. apply step_row_cases in Hd. simpl in Hd.
    destruct Hd as [(s & Hs & ->)|[[Hk _]|[f ->]]].
    + apply list_elem_of_In in Hs. simpl in Hs.
      destruct Hs as [<-|[<-|[<-|[<-|[<-|[<-|[<-|[]]]]]]]]; discriminate.
    + congruence.
    + discriminate.
  - intros d Hd [Hn Hk]. rewrite build_matrix_flat in Hd.
    apply elem_of_flat_map in Hd as (kernel & _ & Hd).
    apply step_row_cases in Hd. simpl in Hd.
    destruct Hd as [(s & Hs & ->)|[[Hne ->]|[f ->]]].
    + apply list_elem_of_In in Hs. simpl in Hs.
      destruct Hs as [<-|[<-|[<-|[<-|[<-|[<-|[<-|[]]]]]]]]; discriminate.
    + unfold kernel_label in Hk. destruct (decide (kernel = default_kernel)).
      * discriminate.
      * apply Hne. vm_compute in Hk. injection Hk as ->. reflexivity.
    + discriminate.
Qed.

(** C5: every row emitted for a kernel of the set has the empty string in
    its [kernel] field if the kernel is the default kernel and the kernel
    itself otherwise, and the matrix holds no other rows. *)
Theorem kernel_field_of_rows `{SetIter} default_kernel trailer_kernels :
  (∀ kernel d,
     d ∈ matrix_step default_kernel [] kernel →
     dict_get (lit "kernel") d
     = Some (if decide (kernel = default_kernel) then [] else kernel))
  ∧ (∀ d, d ∈ build_matrix default_kernel trailer_kernels ↔
          ∃ kernel, kernel ∈ kernels_to_test default_kernel trailer_kernels
                    ∧ d ∈ matrix_step default_kernel [] kernel).
Proof.
  split.
  - intros kernel d Hd. apply step_row_cases in Hd. simpl in Hd.
    fold (kernel_label default_kernel kernel).
    destruct Hd as [(s & _ & ->)|[[_ ->]|[f ->]]]; reflexivity.
  - intros d. rewrite build_matrix_flat, elem_of_flat_map.
    split; intros (k & Hk & Hd); exists k; split; try assumption;
      apply set_iter_elem; assumption.
Qed.

(** C9: the rows of each kernel form one contiguous block, the blocks
    follow the iteration over the kernel set, and inside a block the order
    is fixed: the seven single-variant targets, then [scx_p2dq] if present,
    then the four [scx_layered] rows in product order. *)
Theorem block_order `{SetIter} default_kernel trailer_kernels :
  build_matrix default_kernel trailer_kernels
  = flat_map
      (λ kernel,
         let label := if decide (kernel = default_kernel) then [] else kernel in
         [row (lit "scx_bpfland") [] label;
          row (lit "scx_chaos") [] label;
          row (lit "scx_lavd") [] label;
          row (lit "scx_rlfifo") [] label;
          row (lit "scx_rustland") [] label;
          row (lit "scx_rusty") [] label;
          row (lit "scx_tickless") [] label]
         ++ (if decide (kernel = lit "stable/6_12") then []
             else [row (lit "scx_p2dq") [] label])
         ++ [row (lit "scx_layered")
                 (join (lit " ") [lit "--disable-topology=false"; []]) label;
             row (lit "scx_layered")
                 (join (lit " ") [lit "--disable-topology=false";
                                  lit "--disable-antistall"]) label;
             row (lit "scx_layered")
                 (join (lit " ") [lit "--disable-topology=true"; []]) label;
             row (lit "scx_layered")
                 (join (lit " ") [lit "--disable-topology=true";
                                  lit "--disable-antistall"]) label])
      (set_iter (kernels_to_test default_kernel trailer_kernels)).
Proof.
  rewrite build_matrix_flat. apply flat_map_ext_all. intros kernel.
  rewrite matrix_step_rows. reflexivity.
Qed.

(** ** Strings *)

Lemma startswith_app (p s : str) :
  startswith s p = true → s = p ++ drop (length p) s.
Proof.
  revert s. induction p as [|c p IH]; intros s; simpl.
  - intros _. rewrite drop_0. reflexivity.
  - destruct s as [|d s]; [discriminate|].
    intros E. apply andb_true_iff in E as [E1 E2].
    apply N.eqb_eq in E1 as ->. simpl. f_equal. apply IH, E2.
Qed.

Lemma startswith_prefix (p r : str) : startswith (p ++ r) p = true.
Proof.
  induction p as [|c p IH]; simpl; [reflexivity|].
  rewrite N.eqb_refl, IH. reflexivity.
Qed.

(** A line with the trailer key is not empty and has a colon, and its
    split at the first colon leaves everything after the key. *)
Lemma trailer_line (line : str) :
  startswith line (lit "CI-Test-Kernel:") = true →
  truthy line = true
  ∧ contains (lit ":") line = true
  ∧ split1 (lit ":") line = [lit "CI-Test-Kernel"; drop 15 line].
Proof.
  intros E. apply startswith_app in E.
  change (length (lit "CI-Test-Kernel:")) with 15%nat in E.
  rewrite E. generalize (drop 15 line) as v. intros v.
  repeat split; reflexivity.
Qed.

(** ** Trailer extraction *)

Lemma scan_lines_spec (lines : list str) (commit_subject : str) (n : nat)
    (kernels : gset (list N)) :
  (n ≤ length lines)%nat →
  result (scan_lines lines commit_subject (range_down n) kernels)
  = inr (kernels ∪ list_to_set (trailer_values (take n lines))).
Proof.
  revert kernels. induction n as [|n IH]; intros kernels Hn.
  - simpl. f_equal. unfold trailer_values. simpl. set_solver.
  - destruct (lookup_lt_is_Some_2 lines n) as [l Hl]; [lia|].
    rewrite (take_S_r _ _ _ Hl). unfold trailer_values.
    rewrite rev_unit. cbn [range_down scan_lines map before_stop].
    unfold getitem. rewrite Hl, bind_ret_l.
    destruct (truthy (strip l)) eqn:Et; cbn [negb andb].
    + destruct (contains (lit ":") (strip l)) eqn:Ec; cbn [negb].
      * cbn [List.filter].
        destruct (startswith (strip l) (lit "CI-Test-Kernel:")) eqn:Es.
        -- destruct (trailer_line _ Es) as (_ & _ & ->).
           cbn [getitem lookup list_lookup]. rewrite bind_ret_l.
           erewrite result_bind_inr by reflexivity.
           rewrite IH by lia. f_equal. unfold trailer_values.
           cbn [map list_to_set]. set_solver.
        -- rewrite IH by lia. reflexivity.
      * simpl. f_equal. set_solver.
    + destruct (strip l) eqn:El; [|discriminate].
      cbn [List.filter startswith lit].
      rewrite IH by lia. reflexivity.
Qed.

Lemma scan_commit_spec (kernels : gset (list N)) (commit_message : str) :
  result (scan_commit kernels commit_message)
  = inr (kernels
         ∪ list_to_set (trailer_values (split [LF] (strip commit_message)))).
Proof.
  unfold scan_commit. destruct (truthy (strip commit_message)) eqn:Et; cbn [negb].
  - rewrite scan_lines_spec by lia. rewrite firstn_all. reflexivity.
  - destruct (strip commit_message); [|discriminate].
    simpl. f_equal. set_solver.
Qed.

Lemma scan_commits_spec (commit_messages : list str) (kernels : gset (list N)) :
  result (scan_commits commit_messages kernels)
  = inr (kernels
         ∪ list_to_set
             (flat_map (λ m, trailer_values (split [LF] (strip m)))
                       commit_messages)).
Proof.
  revert kernels. induction commit_messages as [|m ms IH]; intros kernels.
  - simpl. f_equal. set_solver.
  - cbn [scan_commits flat_map].
    erewrite result_bind_inr by apply scan_commit_spec.
    rewrite IH. f_equal. rewrite list_to_set_app_L. set_solver.
Qed.

Lemma result_eprint_bind {A} (l : list frag) (k : run A) :
  result (bind (eprint l) (λ _, k)) = result k.
Proof. reflexivity. Qed.

Lemma result_merge_base environ subprocess_run (mb : str) :
  subprocess_run (merge_base_cmd (base_branch environ)) = Some mb →
  result (match environ !! lit "GITHUB_BASE_REF" with
          | Some b => if negb (truthy b) then merge_base_main subprocess_run
                      else merge_base_target subprocess_run b
          | None => merge_base_main subprocess_run
          end) = inr (strip mb).
Proof.
  unfold base_branch, merge_base_main, merge_base_target, run_checked.
  destruct (environ !! lit "GITHUB_BASE_REF") as [b|];
    [destruct (truthy b)|]; cbn [negb]; intros ->; reflexivity.
Qed.

(** The trailer set of a run whose two [git] commands succeed. *)
Lemma trailers_of_log environ subprocess_run (mb out : str) :
  subprocess_run (merge_base_cmd (base_branch environ)) = Some mb →
  subprocess_run (log_cmd (strip mb ++ lit "..HEAD")) = Some out →
  result (get_kernel_trailers_from_commits environ subprocess_run)
  = inr (if truthy (strip out) then list_to_set (log_trailers out) else ∅).
Proof.
  intros Hmb Hlog. unfold get_kernel_trailers_from_commits.
  rewrite result_eprint_bind.
  erewrite result_bind_inr by (apply result_merge_base; eassumption).
  rewrite result_eprint_bind.
  unfold run_checked. rewrite Hlog, bind_ret_l.
  destruct (truthy (strip out)); cbn [negb]; [|reflexivity].
  rewrite result_eprint_bind.
  erewrite result_bind_inr by apply scan_commits_spec.
  rewrite result_eprint_bind. simpl. f_equal. unfold log_trailers. set_solver.
Qed.

(** C2: for every commit message block the scan adds to the kernel set
    exactly the stripped values of the [CI-Test-Kernel:] lines met while
    going from the last line backward, empty lines skipped, up to the first
    non-empty line without a colon.  The message with the trailer below a
    colon-less body line yields [foo]; the message with a colon-less note
    below the trailer yields nothing. *)
Theorem trailer_scan (kernels : gset (list N)) (commit_message : str) :
  result (scan_commit kernels commit_message)
  = inr (kernels
         ∪ list_to_set (trailer_values (split [LF] (strip commit_message))))
  ∧ result (scan_commit ∅ message_body_then_trailer) = inr {[lit "foo"]}
  ∧ result (scan_commit ∅ message_trailer_then_note) = inr ∅
  ∧ result (get_kernel_trailers_from_commits
              ∅ (sample_git (log_of message_body_then_trailer)))
    = inr {[lit "foo"]}
  ∧ result (get_kernel_trailers_from_commits
              ∅ (sample_git (log_of message_trailer_then_note)))
    = inr ∅.
Proof.
  split; [apply scan_commit_spec|].
  assert (E1 : trailer_values (split [LF] (strip message_body_then_trailer))
               = [lit "foo"]) by (vm_compute; reflexivity).
  assert (E2 : trailer_values (split [LF] (strip message_trailer_then_note))
               = []) by (vm_compute; reflexivity).
  split; [|split; [|split]].
  - rewrite scan_commit_spec, E1. f_equal; set_solver.
  - rewrite scan_commit_spec, E2. f_equal; set_solver.
  - rewrite (trailers_of_log _ _ (lit "abc123" ++ [LF])
               (log_of message_body_then_trailer))
      by (vm_compute; reflexivity).
    assert (truthy (strip (log_of message_body_then_trailer)) = true) as ->
      by (vm_compute; reflexivity).
    assert (log_trailers (log_of message_body_then_trailer) = [lit "foo"]) as ->
      by (vm_compute; reflexivity).
    f_equal; set_solver.
  - rewrite (trailers_of_log _ _ (lit "abc123" ++ [LF])
               (log_of message_trailer_then_note))
      by (vm_compute; reflexivity).
    assert (truthy (strip (log_of message_trailer_then_note)) = true) as ->
      by (vm_compute; reflexivity).
    assert (log_trailers (log_of message_trailer_then_note) = []) as ->
      by (vm_compute; reflexivity).
    reflexivity.
Qed.

(** C8: a scanned line is stripped before the prefix test, so a line whose
    stripped text starts with [CI-Test-Kernel:] is recognised whatever its
    indentation; the value added is everything after that first colon,
    stripped, so [CI-Test-Kernel: a:b] yields [a:b] whole. *)
Theorem trailer_line_stripped (lines : list str) (commit_subject : str)
    (i : nat) (idx : list nat) (kernels : gset (list N)) (l v : str) :
  lines !! i = Some l →
  strip l = lit "CI-Test-Kernel:" ++ v →
  result (scan_lines lines commit_subject (i :: idx) kernels)
  = result (scan_lines lines commit_subject idx ({[strip v]} ∪ kernels))
  ∧ split1 (lit ":") (strip l) = [lit "CI-Test-Kernel"; v]
  ∧ split1 (lit ":") (lit "CI-Test-Kernel: a:b") = [lit "CI-Test-Kernel"; lit " a:b"]
  ∧ result (scan_commit ∅ message_indented_trailer) = inr {[lit "a:b"]}.
Proof.
  intros Hl Hs.
  assert (Es : startswith (strip l) (lit "CI-Test-Kernel:") = true)
    by (rewrite Hs; apply startswith_prefix).
  destruct (trailer_line _ Es) as (Et & Ec & E1).
  assert (Ev : drop 15 (strip l) = v) by (rewrite Hs; reflexivity).
  rewrite Ev in E1.
  split; [|split; [exact E1|split; [reflexivity|]]].
  - cbn [scan_lines]. unfold getitem. rewrite Hl, bind_ret_l.
    rewrite Et, Ec, Es. cbn [negb]. rewrite E1.
    cbn [getitem lookup list_lookup]. rewrite bind_ret_l.
    apply result_eprint_bind.
  - rewrite scan_commit_spec.
    assert (trailer_values (split [LF] (strip message_indented_trailer))
            = [lit "a:b"]) as -> by (vm_compute; reflexivity).
    f_equal; set_solver.
Qed.

Lemma trailer_line_stripped_witness :
  result (scan_lines [lit "  CI-Test-Kernel: a:b "] (lit "t") [0%nat] ∅)
  = result (scan_lines [lit "  CI-Test-Kernel: a:b "] (lit "t") []
                       ({[strip (lit " a:b")]} ∪ ∅)).
Proof.
  apply (trailer_line_stripped [lit "  CI-Test-Kernel: a:b "] (lit "t") 0 [] ∅
           (lit "  CI-Test-Kernel: a:b ") (lit " a:b")); reflexivity.
Defined.

Lemma before_stop_app (l1 l2 : list str) :
  Forall (λ s, truthy s = true → contains (lit ":") s = true) l1 →
  before_stop (l1 ++ l2) = l1 ++ before_stop l2.
Proof.
  induction 1 as [|s l1 Hs _ IH]; simpl; [reflexivity|].
  destruct (truthy s); simpl.
  - rewrite Hs by reflexivity. simpl. rewrite IH. reflexivity.
  - rewrite IH. reflexivity.
Qed.

(** C10: the scan does not leave out the subject line: when every
    non-empty line below the subject has a colon and the subject starts with
    [CI-Test-Kernel:], the subject's value is in the resulting set; a
    message made of the single line [CI-Test-Kernel: foo] yields [foo]. *)
Theorem subject_line_scanned (kernels : gset (list N))
    (commit_message subject : str) (rest : list str) :
  split [LF] (strip commit_message) = subject :: rest →
  Forall (λ l, truthy (strip l) = true → contains (lit ":") (strip l) = true)
         rest →
  startswith (strip subject) (lit "CI-Test-Kernel:") = true →
  (∃ found : gset (list N),
     result (scan_commit kernels commit_message) = inr found
     ∧ strip (drop 15 (strip subject)) ∈ found)
  ∧ result (scan_commit ∅ message_subject_only) = inr {[lit "foo"]}
  ∧ result (scan_commit ∅ message_subject_and_trailers) = inr {[lit "foo"]}.
Proof.
  intros Hsplit Hrest Hsub. split; [|split].
  - eexists. split; [apply scan_commit_spec|].
    apply elem_of_union_r, elem_of_list_to_set.
    rewrite Hsplit. unfold trailer_values.
    cbn [rev]. rewrite map_app. cbn [map].
    rewrite before_stop_app.
    + destruct (trailer_line _ Hsub) as (Et & Ec & _).
      cbn [before_stop]. rewrite Et, Ec. cbn [negb andb].
      rewrite List.filter_app, map_app. apply elem_of_app. right.
      cbn [List.filter]. rewrite Hsub. left.
    + apply Forall_forall. intros s Hin.
      apply list_elem_of_In, in_map_iff in Hin as (l & <- & Hin).
      apply in_rev in Hin. rewrite Forall_forall in Hrest.
      apply Hrest, list_elem_of_In, Hin.
  - rewrite scan_commit_spec.
    assert (trailer_values (split [LF] (strip message_subject_only))
            = [lit "foo"]) as -> by (vm_compute; reflexivity).
    f_equal; set_solver.
  - rewrite scan_commit_spec.
    assert (trailer_values (split [LF] (strip message_subject_and_trailers))
            = [lit "foo"]) as -> by (vm_compute; reflexivity).
    f_equal; set_solver.
Qed.

Lemma subject_line_scanned_witness :
  ∃ found : gset (list N),
    result (scan_commit ∅ message_subject_and_trailers) = inr found
    ∧ strip (drop 15 (strip (lit "CI-Test-Kernel: foo"))) ∈ found.
Proof.
  apply (subject_line_scanned ∅ message_subject_and_trailers
           (lit "CI-Test-Kernel: foo") [[]; lit "Signed-off-by: x"]).
  - vm_compute. reflexivity.
  - repeat constructor; vm_compute; congruence.
  - vm_compute. reflexivity.
Defined.

(** ** The entry point *)

Lemma stdout_bind {A B} (m : run A) (k : A → run B) :
  stdout (bind m k)
  = stdout m ++ match result m with
                | inr a => stdout (k a)
                | inl _ => []
                end.
Proof.
  unfold bind. destruct (result m); simpl; [rewrite app_nil_r|]; reflexivity.
Qed.

Lemma stdout_scan_lines (lines : list str) (commit_subject : str)
    (idx : list nat) (kernels : gset (list N)) :
  stdout (scan_lines lines commit_subject idx kernels) = [].
Proof.
  revert kernels. induction idx as [|i idx IH]; intros kernels; [reflexivity|].
  cbn [scan_lines]. rewrite stdout_bind. unfold getitem at 1 2.
  destruct (lines !! i) as [l|]; [|reflexivity]. cbn [stdout result ret app].
  destruct (negb (truthy (strip l))); [apply IH|].
  destruct (negb (contains (lit ":") (strip l))); [reflexivity|].
  destruct (startswith (strip l) (lit "CI-Test-Kernel:")); [|apply IH].
  rewrite stdout_bind. unfold getitem.
  destruct (split1 (lit ":") (strip l) !! 1%nat); [|reflexivity].
  cbn [stdout result ret app]. rewrite stdout_bind. apply IH.
Qed.

Lemma stdout_scan_commits (commit_messages : list str) (kernels : gset (list N)) :
  stdout (scan_commits commit_messages kernels) = [].
Proof.
  revert kernels. induction commit_messages as [|m ms IH]; intros kernels;
    [reflexivity|].
  cbn [scan_commits]. rewrite stdout_bind, scan_commit_spec, IH.
  unfold scan_commit. destruct (negb (truthy (strip m))); [reflexivity|].
  rewrite stdout_scan_lines. reflexivity.
Qed.

Lemma stdout_merge_base_main subprocess_run :
  stdout (merge_base_main subprocess_run) = [].
Proof.
  unfold merge_base_main, run_checked. destruct (subprocess_run _); reflexivity.
Qed.

Lemma stdout_merge_base_target subprocess_run (b : str) :
  stdout (merge_base_target subprocess_run b) = [].
Proof.
  unfold merge_base_target, run_checked. destruct (subprocess_run _); reflexivity.
Qed.

(** Trailer extraction writes nothing to standard output. *)
Lemma stdout_trailers environ subprocess_run :
  stdout (get_kernel_trailers_from_commits environ subprocess_run) = [].
Proof.
  unfold get_kernel_trailers_from_commits.
  rewrite stdout_bind. cbn [eprint stdout result app].
  rewrite stdout_bind.
  destruct (environ !! lit "GITHUB_BASE_REF") as [b|];
    [destruct (negb (truthy b))|];
    rewrite ?stdout_merge_base_main, ?stdout_merge_base_target;
    cbn [app];
    (destruct (result _) as [e|mb]; [reflexivity|]);
    rewrite stdout_bind; cbn [eprint stdout result app];
    rewrite stdout_bind; unfold run_checked;
    (destruct (subprocess_run (log_cmd _)) as [out|]; [|reflexivity]);
    cbn [stdout result ret app];
    (destruct (negb (truthy (strip out))); [reflexivity|]);
    rewrite stdout_bind; cbn [eprint stdout result app];
    rewrite stdout_bind, stdout_scan_commits, scan_commits_spec; reflexivity.
Qed.

(** A run with one argument whose trailer extraction succeeds prints the
    one line [matrix=<json>]. *)
Lemma main_prints `{SetIter} (environ : gmap (list N) (list N))
    (subprocess_run : list (list N) → option (list N)) (prog default_kernel : str)
    (trailer_kernels : gset (list N)) :
  result (get_kernel_trailers_from_commits environ subprocess_run)
  = inr trailer_kernels →
  result (main environ subprocess_run [prog; default_kernel]) = inr tt
  ∧ stdout (main environ subprocess_run [prog; default_kernel])
    = [lit "matrix=" ++ json_dumps (build_matrix default_kernel trailer_kernels)].
Proof.
  intros E. unfold main. cbn [length Nat.eqb negb getitem lookup list_lookup].
  rewrite bind_ret_l. split.
  - erewrite result_bind_inr by exact E. reflexivity.
  - rewrite stdout_bind, E, stdout_trailers. reflexivity.
Qed.

(** A run that ends normally had one argument and a trailer set. *)
Lemma main_returns `{SetIter} (environ : gmap (list N) (list N))
    (subprocess_run : list (list N) → option (list N)) (argv : list str) :
  result (main environ subprocess_run argv) = inr tt →
  ∃ (prog default_kernel : str) (trailer_kernels : gset (list N)),
    argv = [prog; default_kernel]
    ∧ result (get_kernel_trailers_from_commits environ subprocess_run)
      = inr trailer_kernels.
Proof.
  unfold main. destruct argv as [|prog [|default_kernel [|x argv]]];
    try (cbn; discriminate).
  cbn [length Nat.eqb negb getitem lookup list_lookup]. rewrite bind_ret_l.
  destruct (result (get_kernel_trailers_from_commits environ subprocess_run))
    as [e|K] eqn:E.
  - erewrite result_bind_inl by exact E. discriminate.
  - intros _. eauto.
Qed.

(** C4: when the log of the commit range is empty or only white space,
    trailer extraction returns the empty set without raising, the kernel
    set is the singleton of the default kernel, and the matrix printed is
    the one of the default kernel alone. *)
Theorem empty_commit_range `{SetIter} (environ : gmap (list N) (list N))
    (subprocess_run : list (list N) → option (list N))
    (prog default_kernel mb out : str) :
  subprocess_run (merge_base_cmd (base_branch environ)) = Some mb →
  subprocess_run (log_cmd (strip mb ++ lit "..HEAD")) = Some out →
  strip out = [] →
  result (get_kernel_trailers_from_commits environ subprocess_run) = inr ∅
  ∧ kernels_to_test default_kernel ∅ = {[default_kernel]}
  ∧ set_iter (kernels_to_test default_kernel ∅) = [default_kernel]
  ∧ result (main environ subprocess_run [prog; default_kernel]) = inr tt
  ∧ stdout (main environ subprocess_run [prog; default_kernel])
    = [lit "matrix=" ++ json_dumps (matrix_step default_kernel [] default_kernel)].
Proof.
  intros Hmb Hlog Hout.
  assert (E : result (get_kernel_trailers_from_commits environ subprocess_run)
              = inr ∅).
  { rewrite (trailers_of_log _ _ _ _ Hmb Hlog), Hout. reflexivity. }
  assert (EK : kernels_to_test default_kernel ∅ = {[default_kernel]})
    by (unfold kernels_to_test; set_solver).
  assert (EI : set_iter (kernels_to_test default_kernel ∅) = [default_kernel]).
  { rewrite EK. apply Permutation_singleton_r.
    rewrite set_iter_perm, elements_singleton. reflexivity. }
  destruct (main_prints environ subprocess_run prog default_kernel ∅ E)
    as [Hr Hs].
  repeat split; try assumption.
  rewrite Hs. unfold build_matrix. rewrite EI. reflexivity.
Qed.

Lemma empty_commit_range_witness :
  result (get_kernel_trailers_from_commits ∅ (sample_git [LF])) = inr ∅
  ∧ kernels_to_test (lit "stable/6_13") ∅ = {[lit "stable/6_13"]}
  ∧ set_iter (kernels_to_test (lit "stable/6_13") ∅) = [lit "stable/6_13"]
  ∧ result (main ∅ (sample_git [LF]) [lit "prog"; lit "stable/6_13"]) = inr tt
  ∧ stdout (main ∅ (sample_git [LF]) [lit "prog"; lit "stable/6_13"])
    = [lit "matrix="
       ++ json_dumps (matrix_step (lit "stable/6_13") [] (lit "stable/6_13"))].
Proof.
  apply (empty_commit_range ∅ (sample_git [LF]) (lit "prog") (lit "stable/6_13")
           (lit "abc123" ++ [LF]) [LF]); vm_compute; reflexivity.
Defined.

(** C7: with an argument list that is not the program name and exactly
    one argument, the run prints the usage line to the diagnostic stream,
    prints nothing to standard output and exits with code 1. *)
Theorem usage_error `{SetIter} (environ : gmap (list N) (list N))
    (subprocess_run : list (list N) → option (list N)) (argv : list str) :
  length argv ≠ 2%nat →
  main environ subprocess_run argv
  = Run (inl (SystemExit 1)) []
        [[Text (lit "Usage: list-integration-tests.py <default-kernel>")]].
Proof.
  intros Hn. unfold main.
  destruct (Nat.eqb_spec (length argv) 2) as [E|_]; [contradiction|].
  reflexivity.
Qed.

Lemma usage_error_witness :
  main ∅ (sample_git []) [lit "prog"]
  = Run (inl (SystemExit 1)) []
        [[Text (lit "Usage: list-integration-tests.py <default-kernel>")]]
  ∧ main ∅ (sample_git [])
         [lit "prog"; lit "stable/6_13"; lit "stable/6_12"]
    = Run (inl (SystemExit 1)) []
          [[Text (lit "Usage: list-integration-tests.py <default-kernel>")]].
Proof.
  split; apply usage_error; simpl; lia.
Defined.

(** ** The printed line *)

Lemma unhex_hex_digit (d : N) : d < 16 → unhex (hex_digit d) = Some d.
Proof.
  intros Hd. unfold hex_digit, unhex.
  destruct (N.ltb_spec d 10);
    repeat match goal with
           | |- context [?a <=? ?b] => destruct (N.leb_spec a b); try lia
           end; simpl; f_equal; lia.
Qed.

Lemma hex4_value (n : N) :
  n < 0x10000 →
  0x1000 * (n / 0x1000 mod 16) + 0x100 * (n / 0x100 mod 16)
  + 0x10 * (n / 0x10 mod 16) + n mod 16 = n.
Proof. intros Hn. zify. Z.to_euclidean_division_equations. lia. Qed.

Lemma parse_chars_u (h1 h2 h3 h4 a b c d : N) (r : list N) :
  unhex h1 = Some a → unhex h2 = Some b → unhex h3 = Some c → unhex h4 = Some d →
  parse_chars (BACKSLASH :: 0x75 :: h1 :: h2 :: h3 :: h4 :: r)
  = match parse_chars r with
    | Some (u, rest) => Some (0x1000 * a + 0x100 * b + 0x10 * c + d :: u, rest)
    | None => None
    end.
Proof.
  intros E1 E2 E3 E4.
  cbn [parse_chars]. 
  change (BACKSLASH =? DQUOTE) with false. change (BACKSLASH <? 0x20) with false.
  change (BACKSLASH =? BACKSLASH) with true. change (0x75 =? 0x75) with true. cbv iota.
  rewrite E1, E2, E3, E4. reflexivity.
Qed.

Lemma parse_chars_u_escape (n : N) (r : list N) :
  n < 0x10000 →
  parse_chars (u_escape n ++ r)
  = match parse_chars r with
    | Some (u, rest) => Some (n :: u, rest)
    | None => None
    end.
Proof.
  intros Hn. unfold u_escape, hex4. cbn [app].
  rewrite (parse_chars_u _ _ _ _ (n / 0x1000 mod 16) (n / 0x100 mod 16)
             (n / 0x10 mod 16) (n mod 16))
    by (apply unhex_hex_digit, N.mod_lt; discriminate).
  rewrite hex4_value by exact Hn. reflexivity.
Qed.

Lemma lor_lt_pow2 (a b n : N) : a < 2 ^ n → b < 2 ^ n → N.lor a b < 2 ^ n.
Proof.
  intros Ha Hb.
  destruct (N.eq_dec a 0) as [->|Ha0]; [rewrite N.lor_0_l; exact Hb|].
  destruct (N.eq_dec b 0) as [->|Hb0]; [rewrite N.lor_0_r; exact Ha|].
  destruct (N.eq_dec (N.lor a b) 0) as [E|E]; [rewrite E; lia|].
  apply N.log2_lt_pow2; [lia|]. rewrite N.log2_lor.
  apply N.max_lub_lt; apply N.log2_lt_pow2; solve [lia | assumption].
Qed.

Lemma surrogate_lt (base x : N) :
  base < 0x10000 → N.lor base (N.land x 0x3ff) < 0x10000.
Proof.
  intros Hb. change 0x10000 with (2 ^ 16). apply lor_lt_pow2; [exact Hb|].
  change 0x3ff with (N.ones 10). rewrite N.land_ones.
  pose proof (N.mod_lt x (2 ^ 10)). change (2 ^ 10) with 1024 in *.
  change (2 ^ 16) with 65536. lia.
Qed.

Lemma parse_chars_escape (c : N) (r : list N) :
  parse_chars (escape_char c ++ r)
  = match parse_chars r with
    | Some (u, rest) => Some (utf16 c ++ u, rest)
    | None => None
    end.
Proof.
  unfold escape_char.
  destruct (N.eqb_spec c BACKSLASH) as [->|H1]; [reflexivity|].
  destruct (N.eqb_spec c DQUOTE) as [->|H2]; [reflexivity|].
  destruct (N.eqb_spec c 0x08) as [->|H3]; [reflexivity|].
  destruct (N.eqb_spec c 0x0c) as [->|H4]; [reflexivity|].
  destruct (N.eqb_spec c 0x0a) as [->|H5]; [reflexivity|].
  destruct (N.eqb_spec c 0x0d) as [->|H6]; [reflexivity|].
  destruct (N.eqb_spec c 0x09) as [->|H7]; [reflexivity|].
  unfold utf16.
  destruct ((0x20 <=? c) && (c <=? 0x7e)) eqn:Hp.
  - apply andb_true_iff in Hp as [Hlo Hhi].
    apply N.leb_le in Hlo, Hhi.
    cbn [app parse_chars].
    destruct (N.eqb_spec c DQUOTE); [contradiction|].
    destruct (N.ltb_spec c 0x20); [lia|].
    destruct (N.eqb_spec c BACKSLASH); [contradiction|].
    destruct (N.ltb_spec c 0x10000); [reflexivity|lia].
  - destruct (N.ltb_spec c 0x10000) as [Hc|Hc].
    + apply parse_chars_u_escape, Hc.
    + cbv zeta. rewrite <- app_assoc.
      rewrite parse_chars_u_escape by (apply surrogate_lt; reflexivity).
      rewrite parse_chars_u_escape by (apply surrogate_lt; reflexivity).
      destruct (parse_chars r) as [[u rest]|]; reflexivity.
Qed.

Lemma parse_chars_encode (s rest : list N) :
  parse_chars (flat_map escape_char s ++ DQUOTE :: rest) = Some (units s, rest).
Proof.
  induction s as [|c s IH]; [reflexivity|].
  cbn [flat_map]. rewrite <- app_assoc, parse_chars_escape, IH. reflexivity.
Qed.

Lemma encode_str_app (s rest : list N) :
  encode_str s ++ rest = DQUOTE :: flat_map escape_char s ++ DQUOTE :: rest.
Proof. unfold encode_str. cbn [app]. rewrite <- app_assoc. reflexivity. Qed.

Lemma parse_value_space (f : nat) (s : list N) :
  parse_value f (0x20 :: s) = parse_value f s.
Proof. destruct f; reflexivity. Qed.

Lemma parse_value_str (f : nat) (s rest : list N) :
  parse_value (S f) (encode_str s ++ rest) = Some (JStr (units s), rest).
Proof.
  rewrite encode_str_app. cbn [parse_value skip_ws].
  change (is_ws DQUOTE) with false. cbv iota.
  change (DQUOTE =? DQUOTE) with true. cbv iota.
  rewrite parse_chars_encode. reflexivity.
Qed.

Lemma parse_members_space (pv : list N → option (json * list N)) (f : nat)
    (s : list N) :
  parse_members pv f (0x20 :: s) = parse_members pv f s.
Proof. destruct f; reflexivity. Qed.

Lemma join_cons (sep p : list N) (ps : list (list N)) :
  join sep (p :: ps)
  = p ++ match ps with [] => [] | _ :: _ => sep ++ join sep ps end.
Proof. destruct ps; simpl; [rewrite app_nil_r|]; reflexivity. Qed.

(** One member, then what follows it. *)
Lemma parse_member (pv : list N → option (json * list N)) (fuel : nat)
    (k v tail : list N) :
  (∀ s rest, pv (0x20 :: encode_str s ++ rest) = Some (JStr (units s), rest)) →
  parse_members pv (S fuel) (encode_item (k, v) ++ tail)
  = match skip_ws tail with
    | c :: r' =>
        if c =? 0x2c then
          match parse_members pv fuel r' with
          | Some (kvs, rest) => Some ((units k, JStr (units v)) :: kvs, rest)
          | None => None
          end
        else if c =? 0x7d then Some ([(units k, JStr (units v))], r')
        else None
    | [] => None
    end.
Proof.
  intros Hpv. unfold encode_item. cbn [fst snd].
  change (lit ": ") with [0x3a; 0x20].
  rewrite <- !app_assoc, encode_str_app. cbn [app parse_members skip_ws].
  change (is_ws DQUOTE) with false. cbv iota.
  change (DQUOTE =? DQUOTE) with true. cbv iota.
  rewrite parse_chars_encode. cbn [skip_ws].
  change (is_ws 0x3a) with false. cbv iota.
  change (0x3a =? 0x3a) with true. cbv iota.
  rewrite Hpv. reflexivity.
Qed.

Lemma parse_members_encode (pv : list N → option (json * list N)) :
  (∀ s rest, pv (0x20 :: encode_str s ++ rest) = Some (JStr (units s), rest)) →
  ∀ (d : list (list N * list N)) (fuel : nat) (rest : list N),
    d ≠ [] → (length d ≤ fuel)%nat →
    parse_members pv fuel (join (lit ", ") (map encode_item d) ++ 0x7d :: rest)
    = Some (map (λ kv, (units (fst kv), JStr (units (snd kv)))) d, rest).
Proof.
  intros Hpv. induction d as [|[k v] d IH]; intros fuel rest Hd Hf; [congruence|].
  destruct fuel as [|fuel]; [simpl in Hf; lia|].
  cbn [map]. rewrite join_cons, <- app_assoc, parse_member by exact Hpv.
  destruct d as [|kv d].
  - reflexivity.
  - change (lit ", ") with [0x2c; 0x20]. cbn [map app skip_ws].
    change (is_ws 0x2c) with false. cbv iota.
    change (0x2c =? 0x2c) with true. cbv iota.
    rewrite parse_members_space.
    change [0x2c; 0x20] with (lit ", ").
    change (encode_item kv :: map encode_item d) with (map encode_item (kv :: d)).
    rewrite IH; [reflexivity|discriminate|simpl in *; lia].
Qed.

Lemma parse_value_dict (f : nat) (d : list (list N * list N)) (rest : list N) :
  (1 ≤ f)%nat → (length d ≤ f)%nat →
  parse_value (S f) (encode_dict d ++ rest) = Some (json_of_dict d, rest).
Proof.
  intros H1 Hd. unfold encode_dict, json_of_dict.
  change (lit "{") with [0x7b]. change (lit "}") with [0x7d].
  destruct d as [|[k v] d]; [reflexivity|].
  rewrite <- !app_assoc. cbn [app parse_value skip_ws].
  change (is_ws 0x7b) with false. cbv iota.
  change (0x7b =? DQUOTE) with false. change (0x7b =? 0x5b) with false.
  change (0x7b =? 0x7b) with true. cbv iota.
  rewrite parse_members_encode; [|  | discriminate | exact Hd].
  - cbn [map]. rewrite join_cons. unfold encode_item at 1. cbn [fst].
    rewrite <- !app_assoc, encode_str_app. cbn [app skip_ws].
    change (is_ws DQUOTE) with false. cbv iota.
    change (DQUOTE =? 0x7d) with false. cbv iota. reflexivity.
  - intros s rest'. rewrite parse_value_space.
    destruct f as [|f]; [lia|]. apply parse_value_str.
Qed.

Lemma parse_items_encode (f : nat) (l : list (list (list N * list N))) :
  (2 ≤ f)%nat →
  (∀ d, d ∈ l → (S (length d) ≤ f)%nat) →
  ∀ (fuel : nat) (rest : list N),
    l ≠ [] → (length l ≤ fuel)%nat →
    parse_items (parse_value f) fuel
                (join (lit ", ") (map encode_dict l) ++ 0x5d :: rest)
    = Some (map json_of_dict l, rest).
Proof.
  intros H2. induction l as [|d l IH]; intros Hall fuel rest Hl Hf; [congruence|].
  destruct fuel as [|fuel]; [simpl in Hf; lia|].
  destruct f as [|f]; [lia|].
  cbn [map]. rewrite join_cons, <- app_assoc. cbn [parse_items].
  rewrite parse_value_dict;
    [|lia|specialize (Hall d ltac:(left)); lia].
  destruct l as [|d' l].
  - reflexivity.
  - change (lit ", ") with [0x2c; 0x20]. cbn [map app skip_ws].
    change (is_ws 0x2c) with false. cbv iota.
    change (0x2c =? 0x2c) with true. cbv iota.
    assert (E : ∀ fuel s, parse_items (parse_value (S f)) fuel (0x20 :: s)
                          = parse_items (parse_value (S f)) fuel s).
    { intros [|fl] s; [reflexivity|]. cbn [parse_items].
      rewrite parse_value_space. reflexivity. }
    rewrite E.
    change [0x2c; 0x20] with (lit ", ").
    change (encode_dict d' :: map encode_dict l) with (map encode_dict (d' :: l)).
    rewrite IH; [reflexivity| |discriminate|simpl in *; lia].
    intros d0 Hd0. apply Hall. right. exact Hd0.
Qed.

Lemma parse_value_matrix (f : nat) (l : list (list (list N * list N)))
    (rest : list N) :
  l ≠ [] → (2 ≤ f)%nat → (length l ≤ f)%nat →
  (∀ d, d ∈ l → (S (length d) ≤ f)%nat) →
  parse_value (S f) (json_dumps l ++ rest) = Some (json_of_matrix l, rest).
Proof.
  intros Hl H2 Hlen Hall. unfold json_dumps, json_of_matrix.
  change (lit "[") with [0x5b]. change (lit "]") with [0x5d].
  rewrite <- !app_assoc. cbn [app parse_value skip_ws].
  change (is_ws 0x5b) with false. cbv iota.
  change (0x5b =? DQUOTE) with false. change (0x5b =? 0x5b) with true. cbv iota.
  rewrite parse_items_encode by assumption.
  destruct l as [|d l]; [congruence|].
  cbn [map]. rewrite join_cons. unfold encode_dict at 1.
  change (lit "{") with [0x7b]. cbn [app skip_ws].
  change (is_ws 0x7b) with false. cbv iota.
  change (0x7b =? 0x5d) with false. cbv iota. reflexivity.
Qed.

Lemma length_join_elem (sep p : list N) (ps : list (list N)) :
  p ∈ ps → (length p ≤ length (join sep ps))%nat.
Proof.
  induction ps as [|q ps IH]; intros Hp; [inversion Hp|].
  rewrite join_cons, length_app.
  apply elem_of_cons in Hp as [->|Hp]; [lia|].
  destruct ps as [|q' ps]; [inversion Hp|].
  rewrite length_app. specialize (IH Hp). lia.
Qed.

Lemma length_join_count (sep : list N) (ps : list (list N)) :
  (∀ p, p ∈ ps → (1 ≤ length p)%nat) →
  (length ps ≤ length (join sep ps))%nat.
Proof.
  induction ps as [|q ps IH]; intros Hall; [simpl; lia|].
  rewrite join_cons, length_app. cbn [length].
  pose proof (Hall q ltac:(left)).
  destruct ps as [|q' ps]; [simpl; lia|].
  rewrite length_app.
  assert (length (q' :: ps) ≤ length (join sep (q' :: ps)))%nat
    by (apply IH; intros p Hp; apply Hall; right; exact Hp).
  cbn [length] in *. lia.
Qed.

Lemma length_encode_dict (d : list (list N * list N)) :
  (length d + 2 ≤ length (encode_dict d))%nat.
Proof.
  unfold encode_dict. rewrite !length_app.
  change (length (lit "{")) with 1%nat. change (length (lit "}")) with 1%nat.
  pose proof (length_join_count (lit ", ") (map encode_item d)) as H.
  rewrite length_map in H.
  assert (length d ≤ length (join (lit ", ") (map encode_item d)))%nat; [|lia].
  apply H. intros p Hp. apply list_elem_of_fmap in Hp as ([k v] & -> & _).
  unfold encode_item, encode_str. cbn [fst length]. rewrite !length_app.
  cbn [length]. lia.
Qed.

(** Reading back what [json.dumps] wrote gives the value of the matrix. *)
Lemma json_loads_dumps (l : list (list (list N * list N))) :
  json_loads (json_dumps l) = Some (json_of_matrix l).
Proof.
  destruct l as [|d0 l0] eqn:El; [reflexivity|]. rewrite <- El.
  assert (Hne : l ≠ []) by (rewrite El; discriminate).
  clear El d0 l0. unfold json_loads.
  pose (J := join (lit ", ") (map encode_dict l)).
  assert (HJ : json_dumps l = 0x5b :: J ++ [0x5d]) by reflexivity.
  assert (Hlen : length (json_dumps l) = S (S (length J))).
  { rewrite HJ. cbn [length]. rewrite length_app. cbn [length]. lia. }
  assert (Hd : ∀ d, d ∈ l → (length d + 2 ≤ length J)%nat).
  { intros d Hin. pose proof (length_encode_dict d).
    pose proof (length_join_elem (lit ", ") (encode_dict d) (map encode_dict l)
                  ltac:(apply list_elem_of_fmap; eauto)).
    fold J in H0. lia. }
  assert (Hc : (length l ≤ length J)%nat).
  { pose proof (length_join_count (lit ", ") (map encode_dict l)) as H.
    rewrite length_map in H. apply H. intros p Hp.
    apply list_elem_of_fmap in Hp as (d & -> & _).
    pose proof (length_encode_dict d). lia. }
  rewrite Hlen. rewrite <- (app_nil_r (json_dumps l)) at 1.
  rewrite parse_value_matrix; [reflexivity|assumption| | |].
  - destruct l as [|d l]; [congruence|].
    specialize (Hd d ltac:(left)). lia.
  - lia.
  - intros d Hin. specialize (Hd d Hin). lia.
Qed.

Lemma json_of_row (n f k : list N) :
  json_of_dict (row n f k)
  = JObj [(lit "name", JStr (units n)); (lit "flags", JStr (units f));
          (lit "kernel", JStr (units k))].
Proof. reflexivity. Qed.

Lemma rows_of_matrix `{SetIter} (default_kernel : list N)
    (trailer_kernels : gset (list N)) :
  Forall (λ d, ∃ n f k, d = row n f k)
         (build_matrix default_kernel trailer_kernels).
Proof.
  apply Forall_forall. intros d Hd.
  rewrite build_matrix_flat in Hd.
  apply elem_of_flat_map in Hd as (kernel & _ & Hd).
  apply step_row_cases in Hd. simpl in Hd.
  destruct Hd as [(s & _ & ->)|[[_ ->]|[f ->]]]; eauto.
Qed.

Lemma hex_digit_not_LF (d : N) : hex_digit d ≠ LF.
Proof. unfold hex_digit, LF. destruct (d <? 10); lia. Qed.

Lemma u_escape_no_LF (n : N) : Forall (λ c, c ≠ LF) (u_escape n).
Proof.
  unfold u_escape, hex4.
  repeat constructor; try apply hex_digit_not_LF; discriminate.
Qed.

Lemma escape_char_no_LF (c : N) : Forall (λ c, c ≠ LF) (escape_char c).
Proof.
  unfold escape_char.
  repeat match goal with
         | |- context [N.eqb ?a ?b] => destruct (N.eqb_spec a b)
         end; try (repeat constructor; discriminate).
  destruct ((0x20 <=? c) && (c <=? 0x7e)); [repeat constructor; assumption|].
  destruct (c <? 0x10000); [apply u_escape_no_LF|].
  apply Forall_app; split; apply u_escape_no_LF.
Qed.

Lemma join_no_LF (sep : list N) (ps : list (list N)) :
  Forall (λ c, c ≠ LF) sep → Forall (Forall (λ c, c ≠ LF)) ps →
  Forall (λ c, c ≠ LF) (join sep ps).
Proof.
  intros Hsep. induction 1 as [|p ps Hp _ IH]; [constructor|].
  rewrite join_cons. apply Forall_app; split; [exact Hp|].
  destruct ps; [constructor|]. apply Forall_app; split; assumption.
Qed.

Lemma encode_str_no_LF (s : list N) : Forall (λ c, c ≠ LF) (encode_str s).
Proof.
  unfold encode_str. constructor; [discriminate|].
  apply Forall_app; split; [|repeat constructor; discriminate].
  induction s as [|c s IH]; [constructor|].
  cbn [flat_map]. apply Forall_app; split; [apply escape_char_no_LF|exact IH].
Qed.

(** The text [json.dumps] writes has no line feed: it is one line. *)
Lemma json_dumps_no_LF (l : list (list (list N * list N))) :
  Forall (λ c, c ≠ LF) (json_dumps l).
Proof.
  assert (Hsep : Forall (λ c, c ≠ LF) (lit ", "))
    by (repeat constructor; discriminate).
  unfold json_dumps. apply Forall_app; split; [repeat constructor; discriminate|].
  apply Forall_app; split; [|repeat constructor; discriminate].
  apply join_no_LF; [exact Hsep|].
  apply Forall_forall. intros p Hp.
  apply list_elem_of_fmap in Hp as (d & -> & _).
  unfold encode_dict. apply Forall_app; split; [repeat constructor; discriminate|].
  apply Forall_app; split; [|repeat constructor; discriminate].
  apply join_no_LF; [exact Hsep|].
  apply Forall_forall. intros p Hp.
  apply list_elem_of_fmap in Hp as ([k v] & -> & _).
  unfold encode_item. cbn [fst snd].
  apply Forall_app; split; [apply encode_str_no_LF|].
  apply Forall_app; split; [repeat constructor; discriminate|].
  apply encode_str_no_LF.
Qed.

(** C6: a run that ends normally has printed exactly one line; the line
    is [matrix=] followed by a text that reads back as a JSON array of
    objects, each with exactly the three keys [name], [flags] and [kernel]
    and a string value for each. *)
Theorem output_parses `{SetIter} (environ : gmap (list N) (list N))
    (subprocess_run : list (list N) → option (list N)) (argv : list (list N)) :
  result (main environ subprocess_run argv) = inr tt →
  ∃ text : list N,
    stdout (main environ subprocess_run argv) = [lit "matrix=" ++ text]
    ∧ Forall (λ c, c ≠ LF) (lit "matrix=" ++ text)
    ∧ ∃ objects : list json,
        json_loads text = Some (JArr objects)
        ∧ Forall is_row_object objects.
Proof.
  intros Hr.
  destruct (main_returns _ _ _ Hr) as (prog & default_kernel & K & -> & E).
  destruct (main_prints environ subprocess_run prog default_kernel K E)
    as [_ Hs].
  eexists. split; [exact Hs|]. split.
  { apply Forall_app; split; [repeat constructor; discriminate|].
    apply json_dumps_no_LF. }
  eexists. split; [apply json_loads_dumps|].
  apply Forall_forall. intros v Hv.
  apply list_elem_of_fmap in Hv as (d & -> & Hd).
  pose proof (rows_of_matrix default_kernel K) as Hrows.
  rewrite Forall_forall in Hrows.
  destruct (Hrows d Hd) as (n & f & k & ->).
  rewrite json_of_row. unfold is_row_object. eauto.
Qed.

Lemma output_parses_witness :
  ∃ text : list N,
    stdout (main ∅ (sample_git (log_of message_body_then_trailer))
                 [lit "prog"; lit "stable/6_13"])
    = [lit "matrix=" ++ text]
    ∧ Forall (λ c, c ≠ LF) (lit "matrix=" ++ text)
    ∧ ∃ objects : list json,
        json_loads text = Some (JArr objects)
        ∧ Forall is_row_object objects.
Proof.
  apply output_parses. vm_compute. reflexivity.
Defined.

(** * Further properties *)

(** ** Outcomes of a run *)


Lemma result_merge_base_fails (environ : gmap (list N) (list N))
    (subprocess_run : list (list N) → option (list N)) :
  subprocess_run (merge_base_cmd (base_branch environ)) = None →
  result (match environ !! lit "GITHUB_BASE_REF" with
          | Some b => if negb (truthy b) then merge_base_main subprocess_run
                      else merge_base_target subprocess_run b
          | None => merge_base_main subprocess_run
          end) = inl CalledProcessError.
Proof.
  unfold base_branch, merge_base_main, merge_base_target, run_checked.
  destruct (environ !! lit "GITHUB_BASE_REF") as [b|];
    [destruct (truthy b)|]; cbn [negb]; intros ->; reflexivity.
Qed.

Lemma extraction_result (environ : gmap (list N) (list N))
    (subprocess_run : list (list N) → option (list N)) :
  result (get_kernel_trailers_from_commits environ subprocess_run)
  = match subprocess_run (merge_base_cmd (base_branch environ)) with
    | None => inl CalledProcessError
    | Some mb =>
        match subprocess_run (log_cmd (strip mb ++ lit "..HEAD")) with
        | None => inl CalledProcessError
        | Some out =>
            inr (if truthy (strip out) then list_to_set (log_trailers out)
                 else ∅)
        end
    end.
Proof.
  destruct (subprocess_run (merge_base_cmd (base_branch environ)))
    as [mb|] eqn:Hmb.
  - destruct (subprocess_run (log_cmd (strip mb ++ lit "..HEAD")))
      as [out|] eqn:Hlog.
    + apply (trailers_of_log _ _ _ _ Hmb Hlog).
    + unfold get_kernel_trailers_from_commits. rewrite result_eprint_bind.
      erewrite result_bind_inr by (apply result_merge_base; eassumption).
      rewrite result_eprint_bind. unfold run_checked. rewrite Hlog.
      reflexivity.
  - unfold get_kernel_trailers_from_commits. rewrite result_eprint_bind.
    erewrite result_bind_inl by (apply result_merge_base_fails; assumption).
    reflexivity.
Qed.

Lemma main_run `{SetIter} (environ : gmap (list N) (list N))
    (subprocess_run : list (list N) → option (list N))
    (prog default_kernel : list N) :
  main environ subprocess_run [prog; default_kernel]
  = let extraction := get_kernel_trailers_from_commits environ subprocess_run in
    match result extraction with
    | inr trailer_kernels =>
        Run (inr tt)
            [lit "matrix="
             ++ json_dumps (build_matrix default_kernel trailer_kernels)]
            (stderr extraction)
    | inl e => Run (inl e) [] (stderr extraction)
    end.
Proof.
  unfold main. cbn [length Nat.eqb negb getitem lookup list_lookup].
  rewrite bind_ret_l. cbv zeta. unfold bind.
  rewrite stdout_trailers.
  destruct (result (get_kernel_trailers_from_commits environ subprocess_run));
    [reflexivity|].
  cbn [print result stdout stderr app]. rewrite app_nil_r. reflexivity.
Qed.



(** X3: when [git merge-base] fails, the run stops there: nothing on
    standard output, and the diagnostic stream holds the base-ref line and
    the line announcing the merge-base, nothing more. *)
Theorem merge_base_failure `{SetIter} (environ : gmap (list N) (list N))
    (subprocess_run : list (list N) → option (list N))
    (prog default_kernel : list N) :
  subprocess_run (merge_base_cmd (base_branch environ)) = None →
  main environ subprocess_run [prog; default_kernel]
  = Run (inl CalledProcessError) []
        [[Text (lit "GITHUB_BASE_REF: "
                ++ format_opt (environ !! lit "GITHUB_BASE_REF"))];
         [Text (match environ !! lit "GITHUB_BASE_REF" with
                | Some b =>
                    if truthy b then lit "Using merge-base with origin/" ++ b
                    else lit "No GITHUB_BASE_REF found, using merge-base with origin/main"
                | None =>
                    lit "No GITHUB_BASE_REF found, using merge-base with origin/main"
                end)]].
Proof.
  intros Hmb. unfold main.
  cbn [length Nat.eqb negb getitem lookup list_lookup]. rewrite bind_ret_l.
  unfold get_kernel_trailers_from_commits, base_branch in *.
  unfold merge_base_main, merge_base_target, run_checked.
  destruct (environ !! lit "GITHUB_BASE_REF") as [b|];
    [destruct (truthy b)|]; cbn [negb]; rewrite Hmb; reflexivity.
Qed.

Lemma merge_base_failure_witness :
  main ∅ (λ _, None) [lit "prog"; lit "stable/6_13"]
  = Run (inl CalledProcessError) []
        [[Text (lit "GITHUB_BASE_REF: None")];
         [Text (lit "No GITHUB_BASE_REF found, using merge-base with origin/main")]].
Proof.
  rewrite (merge_base_failure ∅ (λ _, None) (lit "prog") (lit "stable/6_13"))
    by reflexivity.
  vm_compute. reflexivity.
Defined.

(** X4: when [git log] fails after a merge-base that succeeded, the run
    ends with [CalledProcessError] and an empty standard output, and the
    last diagnostic line names the commit range that was searched. *)
Theorem log_failure `{SetIter} (environ : gmap (list N) (list N))
    (subprocess_run : list (list N) → option (list N))
    (prog default_kernel mb : list N) :
  subprocess_run (merge_base_cmd (base_branch environ)) = Some mb →
  subprocess_run (log_cmd (strip mb ++ lit "..HEAD")) = None →
  result (main environ subprocess_run [prog; default_kernel])
  = inl CalledProcessError
  ∧ stdout (main environ subprocess_run [prog; default_kernel]) = []
  ∧ last (stderr (main environ subprocess_run [prog; default_kernel]))
    = Some [Text (lit "Searching for trailers in commit range: "
                  ++ strip mb ++ lit "..HEAD")].
Proof.
  intros Hmb Hlog. rewrite main_run. cbv zeta.
  rewrite extraction_result, Hmb, Hlog. cbn [result stdout stderr].
  repeat split.
  unfold get_kernel_trailers_from_commits, base_branch in *.
  unfold merge_base_main, merge_base_target, run_checked.
  destruct (environ !! lit "GITHUB_BASE_REF") as [b|];
    [destruct (truthy b)|]; cbn [negb]; rewrite Hmb;
    rewrite !bind_ret_l; cbn; rewrite Hlog; reflexivity.
Qed.

Lemma log_failure_witness :
  result (main ∅ (λ args, if decide (args = merge_base_cmd (lit "origin/main"))
                          then Some (lit "abc123") else None)
               [lit "prog"; lit "stable/6_13"])
  = inl CalledProcessError.
Proof.
  apply (log_failure ∅ _ (lit "prog") (lit "stable/6_13") (lit "abc123"));
    vm_compute; reflexivity.
Defined.

Lemma length_step (default_kernel kernel : list N) :
  length (matrix_step default_kernel [] kernel)
  = (if decide (kernel = lit "stable/6_12") then 11 else 12)%nat.
Proof. apply counts_of_step. Qed.

Lemma length_blocks (default_kernel : list N) (ks : list (list N)) :
  NoDup ks →
  (length (flat_map (matrix_step default_kernel []) ks)
   + (if decide (lit "stable/6_12" ∈ ks) then 1 else 0)
   = 12 * length ks)%nat.
Proof.
  induction 1 as [|k ks Hk Hnd IH]; [reflexivity|].
  cbn [flat_map]. rewrite length_app, length_step. cbn [length].
  destruct (decide (k = lit "stable/6_12")) as [->|Hne].
  - destruct (decide (lit "stable/6_12" ∈ ks)); [contradiction|].
    destruct (decide (lit "stable/6_12" ∈ lit "stable/6_12" :: ks)) as [_|Hn];
      [lia|exfalso; apply Hn; left].
  - destruct (decide (lit "stable/6_12" ∈ ks)) as [Hin|Hin];
      destruct (decide (lit "stable/6_12" ∈ k :: ks)) as [Hin'|Hin'];
      try lia.
    + exfalso. apply Hin'. right. exact Hin.
    + exfalso. apply elem_of_cons in Hin' as [E|E]; [congruence|contradiction].
Qed.

(** X5: the matrix has twelve rows per kernel of the kernel set, less one
    if [stable/6_12] is in the set; it always has at least eleven rows. *)
Theorem row_count `{SetIter} (default_kernel : list N)
    (trailer_kernels : gset (list N)) :
  let kernels := kernels_to_test default_kernel trailer_kernels in
  (length (build_matrix default_kernel trailer_kernels)
   + (if decide (lit "stable/6_12" ∈ kernels) then 1 else 0)
   = 12 * size kernels)%nat
  ∧ (11 ≤ length (build_matrix default_kernel trailer_kernels))%nat.
Proof.
  intros kernels.
  assert (E : (length (build_matrix default_kernel trailer_kernels)
               + (if decide (lit "stable/6_12" ∈ kernels) then 1 else 0)
               = 12 * size kernels)%nat).
  { rewrite build_matrix_flat. fold kernels.
    pose proof (length_blocks default_kernel (set_iter kernels)) as Hl.
    rewrite (set_iter_perm kernels) in Hl at 1.
    specialize (Hl (NoDup_elements kernels)).
    assert (Hs : length (set_iter kernels) = size kernels)
      by (rewrite (set_iter_perm kernels); reflexivity).
    rewrite Hs in Hl. rewrite <- Hl.
    destruct (decide (lit "stable/6_12" ∈ kernels)) as [Hin|Hin];
      destruct (decide (lit "stable/6_12" ∈ set_iter kernels)) as [Hin'|Hin'];
      try reflexivity; exfalso.
    - apply Hin', set_iter_elem, Hin.
    - apply Hin, set_iter_elem, Hin'. }
  split; [exact E|].
  assert (1 ≤ size kernels)%nat.
  { assert (Hd : default_kernel ∈ kernels)
      by (unfold kernels, kernels_to_test; set_solver).
    destruct (size kernels) eqn:Es; [|lia].
    apply size_empty_inv in Es. set_solver. }
  destruct (decide (lit "stable/6_12" ∈ kernels)); lia.
Qed.

(** X6: the order in which the kernel set is iterated changes the order
    of the rows only: two iteration orders give matrices that are
    permutations of each other. *)
Theorem matrix_order_independent (order1 order2 : SetIter)
    (default_kernel : list N) (trailer_kernels : gset (list N)) :
  @build_matrix order1 default_kernel trailer_kernels
  ≡ₚ @build_matrix order2 default_kernel trailer_kernels.
Proof.
  rewrite !build_matrix_flat.
  apply Permutation_flat_map.
  rewrite (@set_iter_perm order1), (@set_iter_perm order2). reflexivity.
Qed.

Lemma NoDup_flat_map {A B} (f : A → list B) (l : list A) :
  NoDup l →
  (∀ x, x ∈ l → NoDup (f x)) →
  (∀ x y r, x ∈ l → y ∈ l → x ≠ y → r ∈ f x → r ∈ f y → False) →
  NoDup (flat_map f l).
Proof.
  induction 1 as [|x l Hx Hnd IH]; intros Hf Hdis; [constructor|].
  cbn [flat_map]. apply NoDup_app. split; [apply Hf; left|]. split.
  - intros r Hr Hr'. apply elem_of_flat_map in Hr' as (y & Hy & Hr').
    apply (Hdis x y r); [left|right; exact Hy| |exact Hr|exact Hr'].
    intros ->. contradiction.
  - apply IH.
    + intros y Hy. apply Hf. right. exact Hy.
    + intros y z r Hy Hz. apply Hdis; right; assumption.
Qed.

Lemma flat_map_common {A B} (f : A → list B) (l : list A) (x y : A) (r : B) :
  NoDup (flat_map f l) → x ∈ l → y ∈ l → x ≠ y → r ∈ f x → r ∈ f y → False.
Proof.
  induction l as [|z l IH]; intros Hnd Hx Hy Hne Hrx Hry; [inversion Hx|].
  cbn [flat_map] in Hnd. apply NoDup_app in Hnd as (Hz & Hdis & Hnd).
  apply elem_of_cons in Hx as [->|Hx]; apply elem_of_cons in Hy as [->|Hy].
  - congruence.
  - apply (Hdis r Hrx). apply elem_of_flat_map. eauto.
  - apply (Hdis r Hry). apply elem_of_flat_map. eauto.
  - apply IH; assumption.
Qed.

Lemma NoDup_step (default_kernel kernel : list N) :
  NoDup (matrix_step default_kernel [] kernel).
Proof.
  rewrite matrix_step_rows.
  generalize (kernel_label default_kernel kernel) as label. intros label.
  apply (NoDup_fmap_1 (λ d, (dict_get (lit "name") d, dict_get (lit "flags") d))).
  destruct (decide (kernel = lit "stable/6_12"));
    apply (bool_decide_unpack _); vm_compute; exact I.
Qed.

Lemma kernel_field_of_step (default_kernel kernel : list N)
    (d : list (list N * list N)) :
  d ∈ matrix_step default_kernel [] kernel →
  dict_get (lit "kernel") d = Some (kernel_label default_kernel kernel).
Proof.
  intros Hd. apply step_row_cases in Hd. simpl in Hd.
  destruct Hd as [(s & _ & ->)|[[_ ->]|[f ->]]]; reflexivity.
Qed.

(** X7: the rows of the matrix are pairwise distinct exactly when no
    trailer has the empty value, unless the default kernel is itself the
    empty string.  An empty trailer value adds a kernel whose rows carry
    the same empty [kernel] field as the rows of the default kernel. *)
Theorem rows_distinct_iff `{SetIter} (default_kernel : list N)
    (trailer_kernels : gset (list N)) :
  NoDup (build_matrix default_kernel trailer_kernels)
  ↔ ([] ∈ trailer_kernels → default_kernel = []).
Proof.
  rewrite build_matrix_flat.
  set (kernels := kernels_to_test default_kernel trailer_kernels).
  assert (Hd : default_kernel ∈ set_iter kernels)
    by (apply set_iter_elem; unfold kernels, kernels_to_test; set_solver).
  split.
  - intros Hnd Hin. destruct (decide (default_kernel = [])) as [E|E]; [exact E|].
    exfalso.
    apply (flat_map_common _ _ default_kernel [] (row (lit "scx_bpfland") [] [])
             Hnd Hd).
    + apply set_iter_elem. unfold kernels, kernels_to_test. set_solver.
    + exact E.
    + rewrite matrix_step_rows. unfold kernel_label.
      destruct (decide (default_kernel = default_kernel)); [|congruence]. left.
    + rewrite matrix_step_rows. unfold kernel_label.
      destruct (decide ([] = default_kernel)); [congruence|]. left.
  - intros Hempty. apply NoDup_flat_map.
    + rewrite (set_iter_perm kernels). apply NoDup_elements.
    + intros k _. apply NoDup_step.
    + intros k k' r Hk Hk' Hne Hr Hr'.
      apply set_iter_elem in Hk, Hk'.
      pose proof (kernel_field_of_step _ _ _ Hr) as F.
      pose proof (kernel_field_of_step _ _ _ Hr') as F'.
      rewrite F in F'. injection F' as F'. unfold kernel_label in F'.
      unfold kernels, kernels_to_test in Hk, Hk'.
      destruct (decide (k = default_kernel)) as [->|Hkd];
        destruct (decide (k' = default_kernel)) as [->|Hkd'].
      * congruence.
      * subst k'. apply Hkd'. symmetry. apply Hempty. set_solver.
      * subst k. apply Hkd. symmetry. apply Hempty. set_solver.
      * congruence.
Qed.


(** ** Commits compose *)

(** X8: the kernels found do not depend on the order of the commit
    messages, and the scan only ever adds to the set it starts from. *)
Theorem commits_order_independent (ms ms' : list (list N))
    (kernels : gset (list N)) :
  ms ≡ₚ ms' →
  result (scan_commits ms kernels) = result (scan_commits ms' kernels)
  ∧ ∃ found, result (scan_commits ms kernels) = inr found ∧ kernels ⊆ found.
Proof.
  intros Hp. rewrite !scan_commits_spec. split.
  - f_equal. f_equal. apply set_eq. intros k.
    rewrite !elem_of_list_to_set, !elem_of_flat_map.
    split; intros (m & Hm & Hk); exists m; split; try assumption.
    + rewrite <- Hp. exact Hm.
    + rewrite Hp. exact Hm.
  - eexists. split; [reflexivity|]. set_solver.
Qed.

Lemma commits_order_independent_witness :
  result (scan_commits [message_subject_only; message_indented_trailer] ∅)
  = result (scan_commits [message_indented_trailer; message_subject_only] ∅).
Proof.
  apply (commits_order_independent
           [message_subject_only; message_indented_trailer]
           [message_indented_trailer; message_subject_only] ∅).
  apply perm_swap.
Defined.


(** ** What stops the scan *)

Lemma before_stop_stopped (l1 r : list (list N)) (x : list N) :
  truthy x && negb (contains (lit ":") x) = true →
  before_stop (l1 ++ x :: r) = before_stop l1.
Proof.
  intros Hx. induction l1 as [|c l1 IH]; cbn [app before_stop].
  - rewrite Hx. reflexivity.
  - destruct (truthy c && negb (contains (lit ":") c)); [reflexivity|].
    rewrite IH. reflexivity.
Qed.

Lemma trailer_values_below (above below : list (list N)) (s : list N) :
  stops s = true →
  trailer_values (above ++ s :: below) = trailer_values below.
Proof.
  intros Hs. unfold trailer_values.
  rewrite rev_app_distr. cbn [rev]. rewrite <- app_assoc. cbn [app].
  rewrite map_app. cbn [map]. rewrite before_stop_stopped by exact Hs.
  reflexivity.
Qed.

(** X10: a non-empty line without a colon hides everything above it: the
    scan of the whole message gives what the scan of the lines below that
    line gives. *)
Theorem lines_above_stop_ignored (above below : list (list N))
    (s subject subject' : list N) (kernels : gset (list N)) :
  stops s = true →
  result (scan_lines (above ++ s :: below) subject
                     (range_down (length (above ++ s :: below))) kernels)
  = result (scan_lines below subject' (range_down (length below)) kernels).
Proof.
  intros Hs. rewrite !scan_lines_spec by lia. rewrite !firstn_all.
  rewrite trailer_values_below by exact Hs. reflexivity.
Qed.

Lemma lines_above_stop_ignored_witness :
  result (scan_lines ([lit "CI-Test-Kernel: lost"] ++ lit "note" :: [lit "CI-Test-Kernel: kept"])
                     (lit "t") (range_down 3) ∅)
  = result (scan_lines [lit "CI-Test-Kernel: kept"] (lit "u") (range_down 1) ∅).
Proof.
  apply (lines_above_stop_ignored [lit "CI-Test-Kernel: lost"]
           [lit "CI-Test-Kernel: kept"] (lit "note") (lit "t") (lit "u") ∅).
  vm_compute. reflexivity.
Defined.

Lemma elem_of_before_stop (ls : list (list N)) (x : list N) :
  x ∈ before_stop ls
  ↔ ∃ a b, ls = a ++ x :: b
           ∧ Forall (λ y, truthy y && negb (contains (lit ":") y) = false) a
           ∧ truthy x && negb (contains (lit ":") x) = false.
Proof.
  induction ls as [|c ls IH]; cbn [before_stop].
  - split; [intros Hx; inversion Hx|].
    intros (a & b & E & _). destruct a; discriminate.
  - destruct (truthy c && negb (contains (lit ":") c)) eqn:Ec.
    + split; [intros Hx; inversion Hx|].
      intros ([|c' a] & b & E & Ha & Hx); injection E as -> E.
      * congruence.
      * inversion Ha; congruence.
    + rewrite elem_of_cons, IH. split.
      * intros [->|(a & b & -> & Ha & Hx)].
        -- exists [], ls. auto.
        -- exists (c :: a), b. auto.
      * intros ([|c' a] & b & E & Ha & Hx); injection E as -> E.
        -- left. reflexivity.
        -- right. inversion Ha. eauto.
Qed.

(** X11: a value is added by the scan of a message exactly when it is the
    stripped text after [CI-Test-Kernel:] of some line below which no
    non-empty line without a colon occurs. *)
Theorem trailer_extracted_iff (lines : list (list N)) (subject : list N)
    (kernels : gset (list N)) :
  ∃ found,
    result (scan_lines lines subject (range_down (length lines)) kernels)
    = inr found
    ∧ ∀ v, v ∈ found
           ↔ v ∈ kernels
             ∨ ∃ pre l post,
                 lines = pre ++ l :: post
                 ∧ Forall (λ x, stops x = false) post
                 ∧ startswith (strip l) (lit "CI-Test-Kernel:") = true
                 ∧ v = strip (drop 15 (strip l)).
Proof.
  eexists. split; [apply scan_lines_spec; lia|].
  intros v. rewrite firstn_all, elem_of_union, elem_of_list_to_set.
  apply or_iff_compat_l. unfold trailer_values.
  rewrite list_elem_of_In, in_map_iff. split.
  - intros (x & <- & Hx). apply filter_In in Hx as [Hx Hkey].
    apply list_elem_of_In, elem_of_before_stop in Hx as (a & b & E & Ha & _).
    apply fmap_app_inv in E as (a0 & r0 & -> & E & Hrev).
    symmetry in E. apply fmap_cons_inv in E as (l & b0 & -> & -> & ->).
    exists (rev b0), l, (rev a0). repeat split; try assumption.
    + rewrite <- (rev_involutive lines), Hrev, rev_app_distr. cbn [rev].
      rewrite <- app_assoc. reflexivity.
    + apply Forall_forall. intros y Hy.
      apply list_elem_of_In, in_rev, list_elem_of_In in Hy.
      apply Forall_fmap in Ha. rewrite Forall_forall in Ha.
      apply (Ha y Hy).
  - intros (pre & l & post & -> & Hpost & Hkey & ->).
    exists (strip l). split; [reflexivity|].
    apply filter_In. split; [|exact Hkey].
    apply list_elem_of_In, elem_of_before_stop.
    destruct (trailer_line _ Hkey) as (Et & Ec & _).
    exists (map strip (rev post)), (map strip (rev pre)). repeat split.
    + rewrite rev_app_distr. cbn [rev]. rewrite <- app_assoc, map_app.
      reflexivity.
    + apply Forall_fmap, Forall_forall. intros y Hy.
      apply list_elem_of_In, in_rev, list_elem_of_In in Hy.
      rewrite Forall_forall in Hpost. apply (Hpost y Hy).
    + rewrite Et, Ec. reflexivity.
Qed.

(** ** [strip] *)

Lemma lstrip_suffix (s : list N) :
  ∃ ws, s = ws ++ lstrip s ∧ Forall (λ c, isspace c = true) ws.
Proof.
  induction s as [|c s (ws & E & Hws)]; [exists []; split; [reflexivity|constructor]|].
  cbn [lstrip]. destruct (isspace c) eqn:Ec.
  - exists (c :: ws). split; [cbn [app]; congruence|constructor; assumption].
  - exists []. split; [reflexivity|constructor].
Qed.

Lemma lstrip_head (s : list N) :
  match lstrip s with [] => True | c :: _ => isspace c = false end.
Proof.
  induction s as [|c s IH]; [exact I|].
  cbn [lstrip]. destruct (isspace c) eqn:Ec; [exact IH|exact Ec].
Qed.

Lemma lstrip_fixed (s : list N) :
  match s with [] => True | c :: _ => isspace c = false end → lstrip s = s.
Proof. destruct s as [|c s]; [reflexivity|]. cbn [lstrip]. intros ->. reflexivity. Qed.

Lemma Forall_lstrip (P : N → Prop) (s : list N) :
  Forall P s → Forall P (lstrip s).
Proof.
  induction 1 as [|c s Hc Hs IH]; [constructor|].
  cbn [lstrip]. destruct (isspace c); [exact IH|constructor; assumption].
Qed.

Lemma Forall_rev_list (P : N → Prop) (s : list N) : Forall P s → Forall P (rev s).
Proof.
  rewrite !Forall_forall. intros H x Hx.
  apply H. apply list_elem_of_In, in_rev, list_elem_of_In in Hx. exact Hx.
Qed.

Lemma Forall_strip (P : N → Prop) (s : list N) : Forall P s → Forall P (strip s).
Proof.
  intros H. unfold strip, rstrip.
  apply Forall_rev_list, Forall_lstrip, Forall_rev_list, Forall_lstrip, H.
Qed.

Lemma rstrip_idem (t : list N) : rstrip (rstrip t) = rstrip t.
Proof.
  unfold rstrip. rewrite rev_involutive.
  rewrite (lstrip_fixed (lstrip (rev t))) by apply lstrip_head. reflexivity.
Qed.

(** A stripped string has white space at neither end. *)
Lemma strip_idem (s : list N) : strip (strip s) = strip s.
Proof.
  unfold strip.
  assert (E : lstrip (rstrip (lstrip s)) = rstrip (lstrip s)).
  { apply lstrip_fixed.
    pose proof (lstrip_head s) as Hh.
    set (t := lstrip s) in *. unfold rstrip.
    destruct (lstrip_suffix (rev t)) as (ws & E & _).
    apply (f_equal (@rev N)) in E. rewrite rev_involutive, rev_app_distr in E.
    destruct (rev (lstrip (rev t))) as [|c r]; [exact I|].
    rewrite E in Hh. exact Hh. }
  rewrite E. apply rstrip_idem.
Qed.

(** ** [split] and [join] *)

Lemma split_go_skip (sep : list N) (n : nat) (cur r : list N) :
  (n ≤ length r)%nat → split_go sep n cur r = split_go sep 0 cur (drop n r).
Proof.
  revert r. induction n as [|n IH]; intros r Hn; [rewrite drop_0; reflexivity|].
  destruct r as [|c r]; [simpl in Hn; lia|].
  cbn [split_go drop]. apply IH. simpl in Hn. lia.
Qed.

Lemma startswith_length (s p : list N) :
  startswith s p = true → (length p ≤ length s)%nat.
Proof.
  intros E. apply startswith_app in E.
  apply (f_equal (@length N)) in E. rewrite length_app in E. lia.
Qed.

(** One step of [split], at a separator or not. *)
Lemma split_go_step (sep cur s : list N) :
  sep ≠ [] →
  split_go sep 0 cur s
  = if startswith s sep then rev cur :: split_go sep 0 [] (drop (length sep) s)
    else match s with
         | [] => [rev cur]
         | c :: r => split_go sep 0 (c :: cur) r
         end.
Proof.
  intros Hsep. destruct s as [|c r].
  - destruct sep; [congruence|reflexivity].
  - cbn [split_go]. destruct (startswith (c :: r) sep) eqn:E; [|reflexivity].
    f_equal. pose proof (startswith_length _ _ E) as Hl.
    destruct sep as [|p sep]; [congruence|].
    cbn [length Nat.pred drop] in *. apply split_go_skip. lia.
Qed.

Lemma split_go_nonempty (sep : list N) (n : nat) (cur s : list N) :
  split_go sep n cur s ≠ [].
Proof.
  revert n cur. induction s as [|c s IH]; intros n cur; cbn [split_go];
    [discriminate|].
  destruct n; [|apply IH].
  destruct (startswith (c :: s) sep); [discriminate|apply IH].
Qed.

Lemma join_split_go (sep : list N) (n : nat) :
  sep ≠ [] →
  ∀ s cur, (length s ≤ n)%nat → join sep (split_go sep 0 cur s) = rev cur ++ s.
Proof.
  intros Hsep. induction n as [|n IH]; intros s cur Hn.
  - destruct s; [|simpl in Hn; lia]. rewrite split_go_step by exact Hsep.
    destruct sep; [congruence|]. cbn. rewrite app_nil_r. reflexivity.
  - rewrite split_go_step by exact Hsep.
    destruct (startswith s sep) eqn:E.
    + pose proof (startswith_app _ _ E) as Es.
      pose proof (split_go_nonempty sep 0 [] (drop (length sep) s)) as Hne.
      rewrite join_cons.
      destruct (split_go sep 0 [] (drop (length sep) s)) as [|p ps] eqn:Ep;
        [congruence|].
      rewrite <- Ep, IH.
      * cbn [rev app]. rewrite <- Es. reflexivity.
      * rewrite length_drop. destruct sep; [congruence|]. cbn [length]. lia.
    + destruct s as [|c r]; [cbn; rewrite app_nil_r; reflexivity|].
      rewrite IH by (simpl in Hn; lia).
      cbn [rev]. rewrite <- app_assoc. reflexivity.
Qed.

Lemma split_go_char_free (c : N) (n : nat) :
  ∀ s cur, (length s ≤ n)%nat →
    Forall (λ x, x ≠ c) cur →
    Forall (Forall (λ x, x ≠ c)) (split_go [c] 0 cur s).
Proof.
  induction n as [|n IH]; intros s cur Hn Hcur.
  - destruct s; [|simpl in Hn; lia]. cbn. repeat constructor.
    apply Forall_rev_list, Hcur.
  - destruct s as [|x r]; [cbn; repeat constructor; apply Forall_rev_list, Hcur|].
    cbn [split_go startswith length Nat.pred].
    destruct (N.eqb_spec x c) as [->|Hx]; cbn [andb].
    + constructor; [apply Forall_rev_list, Hcur|].
      apply IH; [simpl in Hn; lia|constructor].
    + apply IH; [simpl in Hn; lia|constructor; assumption].
Qed.

(** X12: for a non-empty separator, joining the pieces of [split] with the
    separator gives the string back, and there is always at least one
    piece; for a one-character separator no piece holds the separator. *)
Theorem split_join (sep s : list N) :
  sep ≠ [] →
  join sep (split sep s) = s
  ∧ split sep s ≠ []
  ∧ (length sep = 1%nat →
     Forall (λ piece, contains sep piece = false) (split sep s)).
Proof.
  intros Hsep. split; [|split].
  - unfold split. rewrite (join_split_go sep (length s)) by (assumption || lia).
    reflexivity.
  - apply split_go_nonempty.
  - intros H1. destruct sep as [|c [|c' sep]]; try discriminate H1.
    pose proof (split_go_char_free c (length s) s [] (Nat.le_refl _)
                  (List.Forall_nil _)) as Hfree.
    unfold split. eapply Forall_impl; [exact Hfree|].
    intros piece Hp. cbn beta in Hp. induction Hp as [|x piece Hx _ IH]; [reflexivity|].
    cbn [contains startswith]. rewrite IH.
    destruct (N.eqb_spec x c); [contradiction|reflexivity].
Qed.

Lemma split_join_witness :
  join ENDOFCOMMIT (split ENDOFCOMMIT (log_of message_subject_only))
  = log_of message_subject_only.
Proof.
  apply (split_join ENDOFCOMMIT (log_of message_subject_only)).
  vm_compute. discriminate.
Defined.

(** ** What the extracted kernels look like *)

Lemma before_stop_incl (ls : list (list N)) (x : list N) :
  x ∈ before_stop ls → x ∈ ls.
Proof.
  induction ls as [|c ls IH]; cbn [before_stop]; [intros Hx; inversion Hx|].
  destruct (truthy c && negb (contains (lit ":") c)); [intros Hx; inversion Hx|].
  intros Hx. apply elem_of_cons in Hx as [->|Hx]; [left|right; apply IH, Hx].
Qed.

Lemma trailer_value_shape (s v : list N) :
  v ∈ trailer_values (split [LF] s) →
  strip v = v ∧ Forall (λ c, c ≠ LF) v.
Proof.
  unfold trailer_values. intros Hv.
  apply list_elem_of_In, in_map_iff in Hv as (x & <- & Hx).
  apply filter_In in Hx as [Hx _].
  apply list_elem_of_In, before_stop_incl, list_elem_of_fmap in Hx
    as (l & -> & Hl).
  split; [apply strip_idem|].
  apply Forall_strip, Forall_drop, Forall_strip.
  apply list_elem_of_In, in_rev, list_elem_of_In in Hl.
  pose proof (split_go_char_free LF (length s) s [] (Nat.le_refl _)
                (List.Forall_nil _)) as Hfree.
  rewrite Forall_forall in Hfree. apply (Hfree l Hl).
Qed.

(** X13: every kernel returned by trailer extraction is stripped (white
    space at neither end) and holds no line feed. *)
Theorem extracted_kernels_stripped
    (environ : gmap (list N) (list N))
    (subprocess_run : list (list N) → option (list N))
    (trailer_kernels : gset (list N)) :
  result (get_kernel_trailers_from_commits environ subprocess_run)
  = inr trailer_kernels →
  ∀ kernel, kernel ∈ trailer_kernels →
            strip kernel = kernel ∧ Forall (λ c, c ≠ LF) kernel.
Proof.
  rewrite extraction_result.
  destruct (subprocess_run (merge_base_cmd (base_branch environ))) as [mb|];
    [|discriminate].
  destruct (subprocess_run (log_cmd (strip mb ++ lit "..HEAD"))) as [out|];
    [|discriminate].
  intros E kernel Hk. injection E as <-.
  destruct (truthy (strip out)); [|set_solver].
  apply elem_of_list_to_set in Hk. unfold log_trailers in Hk.
  apply elem_of_flat_map in Hk as (m & _ & Hk).
  apply (trailer_value_shape _ _ Hk).
Qed.

Lemma extracted_kernels_stripped_witness :
  strip (lit "foo") = lit "foo" ∧ Forall (λ c, c ≠ LF) (lit "foo").
Proof.
  apply (extracted_kernels_stripped
           ∅ (sample_git (log_of message_body_then_trailer)) {[lit "foo"]}).
  - vm_compute. reflexivity.
  - apply elem_of_singleton. reflexivity.
Defined.

(** ** The base ref *)

(** X14: an empty [GITHUB_BASE_REF] is treated like a missing one: the
    merge-base is taken with [origin/main] and the extraction gives the same
    result; a non-empty value [b] selects [origin/b]. *)
Theorem empty_base_ref_is_unset (environ : gmap (list N) (list N))
    (subprocess_run : list (list N) → option (list N)) :
  result (get_kernel_trailers_from_commits
            (<[lit "GITHUB_BASE_REF" := []]> environ) subprocess_run)
  = result (get_kernel_trailers_from_commits
              (delete (lit "GITHUB_BASE_REF") environ) subprocess_run)
  ∧ base_branch (<[lit "GITHUB_BASE_REF" := []]> environ) = lit "origin/main"
  ∧ (∀ b, b ≠ [] →
          base_branch (<[lit "GITHUB_BASE_REF" := b]> environ)
          = lit "origin/" ++ b).
Proof.
  assert (E1 : base_branch (<[lit "GITHUB_BASE_REF" := []]> environ)
               = lit "origin/main")
    by (unfold base_branch; rewrite lookup_insert_eq; reflexivity).
  assert (E2 : base_branch (delete (lit "GITHUB_BASE_REF") environ)
               = lit "origin/main")
    by (unfold base_branch; rewrite lookup_delete_eq; reflexivity).
  split; [|split].
  - rewrite !extraction_result, E1, E2. reflexivity.
  - exact E1.
  - intros b Hb. unfold base_branch. rewrite lookup_insert_eq.
    destruct b; [congruence|reflexivity].
Qed.

(** ** The printed text *)


Lemma units_bmp (s : list N) : Forall (λ c, c < 0x10000) s → units s = s.
Proof.
  induction 1 as [|c s Hc _ IH]; [reflexivity|].
  unfold units in *. cbn [flat_map]. rewrite IH. unfold utf16.
  destruct (N.ltb_spec c 0x10000); [reflexivity|lia].
Qed.

(** X15: reading back what [json.dumps] wrote gives the dictionaries in
    order, each string as its UTF-16 code units; when every code point is
    below [0x10000] the strings come back unchanged. *)
Theorem json_round_trip (l : list (list (list N * list N))) :
  json_loads (json_dumps l) = Some (json_of_matrix l)
  ∧ (Forall (Forall (λ kv, Forall (λ c, c < 0x10000) (fst kv)
                           ∧ Forall (λ c, c < 0x10000) (snd kv))) l →
     json_loads (json_dumps l) = Some (json_of_plain l)).
Proof.
  split; [apply json_loads_dumps|].
  intros Hl. rewrite json_loads_dumps. f_equal.
  unfold json_of_matrix, json_of_plain, json_of_dict. f_equal.
  induction Hl as [|d l Hd _ IH]; [reflexivity|].
  cbn [map]. rewrite IH. f_equal. f_equal.
  induction Hd as [|[k v] d [Hk Hv] _ IHd]; [reflexivity|].
  cbn [map fst snd] in *. rewrite IHd, !units_bmp by assumption. reflexivity.
Qed.

Lemma hex_digit_printable (d : N) : d < 16 → printable (hex_digit d).
Proof. unfold hex_digit, printable. destruct (N.ltb_spec d 10); lia. Qed.

Lemma u_escape_printable (n : N) : Forall printable (u_escape n).
Proof.
  unfold u_escape, hex4.
  repeat constructor;
    try (apply hex_digit_printable, N.mod_lt; discriminate);
    unfold printable, BACKSLASH; lia.
Qed.

Lemma escape_char_printable (c : N) : Forall printable (escape_char c).
Proof.
  unfold escape_char.
  repeat match goal with
         | |- context [N.eqb ?a ?b] => destruct (N.eqb_spec a b)
         end;
    try (repeat constructor; unfold printable, BACKSLASH, DQUOTE; lia).
  destruct ((0x20 <=? c) && (c <=? 0x7e)) eqn:Hp.
  - apply andb_true_iff in Hp as [Hlo Hhi]. apply N.leb_le in Hlo, Hhi.
    repeat constructor; assumption.
  - destruct (c <? 0x10000); [apply u_escape_printable|].
    apply Forall_app; split; apply u_escape_printable.
Qed.

Lemma join_printable (sep : list N) (ps : list (list N)) :
  Forall printable sep → Forall (Forall printable) ps →
  Forall printable (join sep ps).
Proof.
  intros Hsep. induction 1 as [|p ps Hp _ IH]; [constructor|].
  rewrite join_cons. apply Forall_app; split; [exact Hp|].
  destruct ps; [constructor|]. apply Forall_app; split; assumption.
Qed.

Lemma encode_str_printable (s : list N) : Forall printable (encode_str s).
Proof.
  unfold encode_str. constructor; [unfold printable, DQUOTE; lia|].
  apply Forall_app; split;
    [|repeat constructor; unfold printable, DQUOTE; lia].
  induction s as [|c s IH]; [constructor|].
  cbn [flat_map]. apply Forall_app; split; [apply escape_char_printable|exact IH].
Qed.

Lemma lit_printable_sep : Forall printable (lit ", ").
Proof. repeat constructor; vm_compute; discriminate. Qed.

Lemma json_dumps_printable (l : list (list (list N * list N))) :
  Forall printable (json_dumps l).
Proof.
  unfold json_dumps.
  apply Forall_app; split; [repeat constructor; vm_compute; discriminate|].
  apply Forall_app; split; [|repeat constructor; vm_compute; discriminate].
  apply join_printable; [exact lit_printable_sep|].
  apply Forall_forall. intros p Hp.
  apply list_elem_of_fmap in Hp as (d & -> & _).
  unfold encode_dict.
  apply Forall_app; split; [repeat constructor; vm_compute; discriminate|].
  apply Forall_app; split; [|repeat constructor; vm_compute; discriminate].
  apply join_printable; [exact lit_printable_sep|].
  apply Forall_forall. intros p Hp.
  apply list_elem_of_fmap in Hp as ([k v] & -> & _).
  unfold encode_item. cbn [fst snd].
  apply Forall_app; split; [apply encode_str_printable|].
  apply Forall_app; split; [repeat constructor; vm_compute; discriminate|].
  apply encode_str_printable.
Qed.

(** X16: whatever the kernel names are, standard output holds at most one
    line and every code point of it is printable ASCII. *)
Theorem output_is_ascii `{SetIter} (environ : gmap (list N) (list N))
    (subprocess_run : list (list N) → option (list N)) (argv : list (list N)) :
  Forall (Forall printable) (stdout (main environ subprocess_run argv))
  ∧ (length (stdout (main environ subprocess_run argv)) ≤ 1)%nat.
Proof.
  destruct (decide (length argv = 2%nat)) as [E|E].
  - destruct argv as [|prog [|default_kernel [|x argv]]]; try discriminate E.
    rewrite main_run. cbv zeta.
    destruct (result (get_kernel_trailers_from_commits environ subprocess_run));
      cbn [stdout]; (split; [|simpl; lia]); [constructor|].
    constructor; [|constructor].
    apply Forall_app; split; [|apply json_dumps_printable].
    repeat constructor; vm_compute; discriminate.
  - unfold main.
    destruct (Nat.eqb_spec (length argv) 2) as [E'|_]; [contradiction|].
    cbn. split; [constructor|lia].
Qed.


